(** * YTS search plugin (src/yts.py): query tag extraction and the
      fetch / filter / emit loop.

    The development follows the source top-down:
    - Python strings, the character classes and the [re] operations that
      [yts.search] uses ([re.search], [re.sub] with an empty replacement,
      [str.strip]);
    - the tag extraction at the head of [yts.search] (source lines 117-161),
      called [parse];
    - the dataclasses [yts_torrent], [yts_movie], [yts_data], [yts_response]
      with their [__post_init__] hooks, and [yts.convert_response];
    - [yts.search] itself, over an explicit trace of its effects (fetches,
      prints, records handed to [prettyPrinter]) and Python exceptions.

    Strings are sequences of code points in the range 0..255; the character
    classes are Python's Unicode classes restricted to that range.  JSON
    numbers are integers; floating point numbers are outside the model. *)

From Stdlib Require Import List Ascii ZArith Lia Bool Arith.
Import ListNotations.

(** ** Python strings *)

Definition str := list ascii.

Inductive str_lit := lit_nil | lit_cons (c : ascii) (s : str_lit).

Fixpoint lit_of_bytes (l : list Byte.byte) : str_lit :=
  match l with
  | [] => lit_nil
  | b :: l' => lit_cons (ascii_of_byte b) (lit_of_bytes l')
  end.

Fixpoint bytes_of_lit (s : str_lit) : list Byte.byte :=
  match s with
  | lit_nil => []
  | lit_cons c s' => byte_of_ascii c :: bytes_of_lit s'
  end.

Declare Scope str_scope.
Delimit Scope str_scope with str.
Set Warnings "-via-type-remapping,-via-type-mismatch".
String Notation str lit_of_bytes bytes_of_lit
  (via str_lit mapping [[nil] => lit_nil, [cons] => lit_cons]) : str_scope.
Set Warnings "via-type-remapping,via-type-mismatch".
Open Scope str_scope.
Open Scope list_scope.

Definition ascii_eqb (a b : ascii) : bool := Ascii.eqb a b.

Fixpoint str_eqb (a b : str) : bool :=
  match a, b with
  | [], [] => true
  | x :: a', y :: b' => ascii_eqb x y && str_eqb a' b'
  | _, _ => false
  end.

Definition code (c : ascii) : nat := nat_of_ascii c.

Definition in_range (lo hi : nat) (c : ascii) : bool :=
  (lo <=? code c)%nat && (code c <=? hi)%nat.

(** [\d] on a [str] pattern: the decimal digits (Unicode category Nd).
    Among the code points 0..255 these are [0] to [9]; the decimal digits
    of other scripts, which [\d] matches too, lie outside the alphabet of
    this development. *)
Definition is_digit (c : ascii) : bool := in_range 48 57 c.

(** [\w] on a [str] pattern: [c.isalnum() or c == '_']. *)
Definition is_word (c : ascii) : bool :=
  existsb (fun r => in_range (fst r) (snd r) c)
    [(48, 57); (65, 90); (95, 95); (97, 122); (170, 170); (178, 179);
     (181, 181); (185, 186); (188, 190); (192, 214); (216, 246);
     (248, 255)]%nat.

(** [str.isspace] on one character. *)
Definition is_space (c : ascii) : bool :=
  existsb (fun r => in_range (fst r) (snd r) c)
    [(9, 13); (28, 32); (133, 133); (160, 160)]%nat.

(** [str.strip()] *)
Fixpoint lstrip (s : str) : str :=
  match s with
  | c :: s' => if is_space c then lstrip s' else s
  | [] => []
  end.

Definition rstrip (s : str) : str := rev (lstrip (rev s)).

Definition strip (s : str) : str := rstrip (lstrip s).

(** Decimal rendering of a Python [int]. *)
Definition digit_char (n : nat) : ascii := ascii_of_nat (48 + n).

Fixpoint dec_digits (fuel : nat) (n : nat) (acc : str) : str :=
  match fuel with
  | O => acc
  | S fuel' =>
      let acc' := digit_char (n mod 10) :: acc in
      if (n <? 10)%nat then acc' else dec_digits fuel' (n / 10) acc'
  end.

Definition str_of_nat (n : nat) : str := dec_digits (S n) n [].

Definition str_of_Z (z : Z) : str :=
  if (z <? 0)%Z then "-" ++ str_of_nat (Z.to_nat (- z))
  else str_of_nat (Z.to_nat z).

(** ** The fragment of Python's [re] used by the plugin

    Patterns are matched by backtracking.  [rmatch r s] lists, in the order
    in which the backtracking matcher tries them, the suffixes of [s] left
    after each way of matching [r] at the start of [s]; the matcher
    commits to the first one. *)

Inductive regex :=
| Eps
| Lit (c : ascii)
| Cls (p : ascii -> bool)
| Cat (r1 r2 : regex)
| Alt (r1 r2 : regex)
| Opt (r : regex)
| ClsPlus (p : ascii -> bool).

Fixpoint lits (s : str) : regex :=
  match s with
  | [] => Eps
  | c :: s' => Cat (Lit c) (lits s')
  end.

Fixpoint alts (l : list regex) : regex :=
  match l with
  | [] => Eps
  | [r] => r
  | r :: l' => Alt r (alts l')
  end.

(** Greedy [p+]: longest run first. *)
Fixpoint plus_rests (p : ascii -> bool) (s : str) : list str :=
  match s with
  | c :: s' => if p c then plus_rests p s' ++ [s'] else []
  | [] => []
  end.

Fixpoint rmatch (r : regex) (s : str) : list str :=
  match r with
  | Eps => [s]
  | Lit c =>
      match s with
      | x :: s' => if ascii_eqb x c then [s'] else []
      | [] => []
      end
  | Cls p =>
      match s with
      | x :: s' => if p x then [s'] else []
      | [] => []
      end
  | Cat r1 r2 => flat_map (rmatch r2) (rmatch r1 s)
  | Alt r1 r2 => rmatch r1 s ++ rmatch r2 s
  | Opt r1 => rmatch r1 s ++ [s]
  | ClsPlus p => plus_rests p s
  end.

(** A pattern of the shape [head(group)]: an uncaptured head followed by
    capturing group 1, which ends the pattern.  [&page=\d+] has no group
    and is a plain [regex]. *)
Record pattern := { pat_head : regex; pat_group : regex }.

Definition pat_regex (p : pattern) : regex := Cat (pat_head p) (pat_group p).

(** The text consumed between [s] and its suffix [rest]. *)
Definition consumed (s rest : str) : str :=
  firstn (length s - length rest) s.

(** The ways of matching the pattern at the start of [s], in backtracking
    order: [(group 1, rest)]. *)
Definition candidates (p : pattern) (s : str) : list (str * str) :=
  flat_map (fun s1 => map (fun s2 => (consumed s1 s2, s2))
                          (rmatch (pat_group p) s1))
           (rmatch (pat_head p) s).

(** First successful match of the pattern at the start of [s]. *)
Definition pmatch (p : pattern) (s : str) : option (str * str) :=
  match candidates p s with
  | m :: _ => Some m
  | [] => None
  end.

(** [re.search(p, s)], reduced to what the plugin reads from the match
    object: [group(1)]. *)
Fixpoint re_search (p : pattern) (s : str) : option str :=
  match pmatch p s with
  | Some (g, _) => Some g
  | None =>
      match s with
      | [] => None
      | _ :: s' => re_search p s'
      end
  end.

(** Length of the first match of [r] at the start of [s]. *)
Definition match_len (r : regex) (s : str) : option nat :=
  match rmatch r s with
  | rest :: _ => Some (length s - length rest)
  | [] => None
  end.

(** [re.sub(r, "", s)]: scan left to right, delete every match found,
    resume after it.  [skip] counts the characters of the current match
    still to be deleted.  (An empty match deletes nothing.) *)
Fixpoint sub_from (r : regex) (skip : nat) (s : str) : str :=
  match s with
  | [] => []
  | c :: s' =>
      match skip with
      | S k => sub_from r k s'
      | O =>
          match match_len r s with
          | Some (S k) => sub_from r k s'
          | _ => c :: sub_from r 0 s'
          end
      end
  end.

Definition re_sub (r : regex) (s : str) : str := sub_from r 0 s.

(** ** Tag extraction (yts.search, source lines 117-161) *)

(** [(?:quality=)?((?:2160|1440|1080|720|480|240)p|3D)] *)
Definition quality_rstring : pattern :=
  {| pat_head := Opt (lits "quality=");
     pat_group :=
       Alt (Cat (alts [lits "2160"; lits "1440"; lits "1080";
                       lits "720"; lits "480"; lits "240"])
                (Lit "p"%char))
           (lits "3D") |}.

(** [\.?(?:x|h)(264|265)] *)
Definition codec_rstring : pattern :=
  {| pat_head := Cat (Opt (Lit "."%char)) (Alt (Lit "x"%char) (Lit "h"%char));
     pat_group := Alt (lits "264") (lits "265") |}.

(** [(?:min(?:imum)?_)?rating=(\d)] *)
Definition rating_rstring : pattern :=
  {| pat_head :=
       Cat (Opt (Cat (lits "min") (Cat (Opt (lits "imum")) (Lit "_"%char))))
           (lits "rating=");
     pat_group := Cls is_digit |}.

(** [genre=(\w+)] *)
Definition genre_rstring : pattern :=
  {| pat_head := lits "genre="; pat_group := ClsPlus is_word |}.

(** [&page=\d+] *)
Definition search_rstring : regex := Cat (lits "&page=") (ClsPlus is_digit).

(** Values stored in [search_params]: a string, or the set literal
    [{min_rating}] (a Python [set] holding the listed strings). *)
Inductive param :=
| PvStr (s : str)
| PvSet (elems : list str).

(** [search_params]: a Python [dict], in insertion order. *)
Definition params := list (str * param).

Fixpoint dict_get {V} (k : str) (d : list (str * V)) : option V :=
  match d with
  | [] => None
  | (k', v) :: d' => if str_eqb k' k then Some v else dict_get k d'
  end.

(** [d[k] = v]: replaces the value of an existing key in place, appends a
    new key. *)
Fixpoint dict_set {V} (k : str) (v : V) (d : list (str * V))
  : list (str * V) :=
  match d with
  | [] => [(k, v)]
  | (k', v') :: d' =>
      if str_eqb k' k then (k', v) :: d' else (k', v') :: dict_set k v d'
  end.

(** The local variables of [yts.search] once the query has been taken
    apart.  [min_rating] and [genre] are bound only when their tag was
    found. *)
Record parsed := {
  what : str;
  search_params : params;
  search_resolution : option str;
  search_codec : option str;
  min_rating : option str;
  genre : option str
}.

Definition parse_start (w : str) : parsed :=
  {| what := w; search_params := []; search_resolution := None;
     search_codec := None; min_rating := None; genre := None |}.

(** lines 119-126 *)
Definition parse_quality (st : parsed) : parsed :=
  match re_search quality_rstring (what st) with
  | Some g =>
      {| what := strip (re_sub (pat_regex quality_rstring) (what st));
         search_params := dict_set "quality" (PvStr g) (search_params st);
         search_resolution := Some g;
         search_codec := search_codec st;
         min_rating := min_rating st;
         genre := genre st |}
  | None => st
  end.

(** [search_params["quality"] += f".{search_codec}"]; the key is present
    and holds a string whenever this runs. *)
Definition append_codec (c : str) (d : params) : params :=
  match dict_get "quality" d with
  | Some (PvStr q) => dict_set "quality" (PvStr (q ++ "." ++ c)) d
  | _ => d
  end.

(** lines 127-137 *)
Definition parse_codec (st : parsed) : parsed :=
  match re_search codec_rstring (what st) with
  | Some g =>
      let c := "x" ++ g in
      {| what := strip (re_sub (pat_regex codec_rstring) (what st));
         search_params :=
           match dict_get "quality" (search_params st) with
           | Some _ => append_codec c (search_params st)
           | None => search_params st
           end;
         search_resolution := search_resolution st;
         search_codec := Some c;
         min_rating := min_rating st;
         genre := genre st |}
  | None => st
  end.

(** lines 139-145 *)
Definition parse_rating (st : parsed) : parsed :=
  match re_search rating_rstring (what st) with
  | Some g =>
      {| what := strip (re_sub (pat_regex rating_rstring) (what st));
         search_params :=
           dict_set "minimum_rating" (PvSet [g]) (search_params st);
         search_resolution := search_resolution st;
         search_codec := search_codec st;
         min_rating := Some g;
         genre := genre st |}
  | None => st
  end.

(** lines 147-153 *)
Definition parse_genre (st : parsed) : parsed :=
  match re_search genre_rstring (what st) with
  | Some g =>
      {| what := strip (re_sub (pat_regex genre_rstring) (what st));
         search_params := dict_set "genre" (PvStr g) (search_params st);
         search_resolution := search_resolution st;
         search_codec := search_codec st;
         min_rating := min_rating st;
         genre := Some g |}
  | None => st
  end.

(** lines 155-161 *)
Definition parse_page (st : parsed) : parsed :=
  let w := strip (re_sub search_rstring (what st)) in
  {| what := w;
     search_params :=
       match w with
       | [] => search_params st
       | _ => dict_set "query_term" (PvStr w) (search_params st)
       end;
     search_resolution := search_resolution st;
     search_codec := search_codec st;
     min_rating := min_rating st;
     genre := genre st |}.

(** The whole extraction, on the query as [unquote] returned it. *)
Definition parse (w : str) : parsed :=
  parse_page (parse_genre (parse_rating (parse_codec (parse_quality
    (parse_start w))))).

(** ** Python values and exceptions *)

(** What [json.loads] returns (numbers: integers only).  A [PDict] lists
    the items of a [dict] in insertion order; its keys are distinct. *)
#[warning="-register-all"] Inductive pyval :=
| PNone
| PBool (b : bool)
| PInt (n : Z)
| PStr (s : str)
| PList (l : list pyval)
| PDict (d : list (str * pyval)).

Definition dict := list (str * pyval).

(** Exceptions raised by the plugin's own code, and those raised by its
    collaborators ([retrieve_url], [json.loads]). *)
Inductive exn :=
| TypeError
| AttributeError
| ZeroDivisionError
| External (name : str).

Inductive res (A : Type) :=
| Ok (a : A)
| Raise (e : exn).

Arguments Ok {A} a.
Arguments Raise {A} e.

Definition res_bind {A B} (m : res A) (k : A -> res B) : res B :=
  match m with
  | Ok a => k a
  | Raise e => Raise e
  end.

Declare Scope res_scope.
Delimit Scope res_scope with res.
Notation "'let?' x := m 'in' k" := (res_bind m (fun x => k))
  (at level 10, x name, m at level 100, k at level 200) : res_scope.
Open Scope res_scope.

(** [list(f(x) for x in l)]: the first exception escapes. *)
Fixpoint map_res {A B} (f : A -> res B) (l : list A) : res (list B) :=
  match l with
  | [] => Ok []
  | x :: l' =>
      let? y := f x in
      let? ys := map_res f l' in
      Ok (y :: ys)
  end.

Definition mem (k : str) (l : list str) : bool := existsb (str_eqb k) l.

Definition keys {V} (d : list (str * V)) : list str := map fst d.

(** Truth value of an object. *)
Definition py_truthy (v : pyval) : bool :=
  match v with
  | PNone => false
  | PBool b => b
  | PInt n => negb (n =? 0)%Z
  | PStr s => negb (str_eqb s "")
  | PList l => match l with [] => false | _ => true end
  | PDict d => match d with [] => false | _ => true end
  end.

(** [bool] is a subclass of [int]. *)
Definition as_int (v : pyval) : option Z :=
  match v with
  | PInt n => Some n
  | PBool b => Some (if b then 1 else 0)%Z
  | _ => None
  end.

(** [v == s] for a string [s] *)
Definition py_eq_str (v : pyval) (s : str) : bool :=
  match v with
  | PStr t => str_eqb t s
  | _ => false
  end.

(** [v == n] for an integer [n] *)
Definition py_eq_int (v : pyval) (n : Z) : bool :=
  match as_int v with
  | Some m => (m =? n)%Z
  | None => false
  end.

(** [a + b] *)
Definition py_add (a b : pyval) : res pyval :=
  match a, b with
  | PStr x, PStr y => Ok (PStr (x ++ y))
  | PList x, PList y => Ok (PList (x ++ y))
  | _, _ =>
      match as_int a, as_int b with
      | Some x, Some y => Ok (PInt (x + y))
      | _, _ => Raise TypeError
      end
  end.

(** [a // b] *)
Definition py_floordiv (a b : pyval) : res Z :=
  match as_int a, as_int b with
  | Some x, Some y =>
      if (y =? 0)%Z then Raise ZeroDivisionError else Ok (x / y)%Z
  | _, _ => Raise TypeError
  end.

(** [for x in v]: the items iterated over. *)
Definition py_iter (v : pyval) : res (list pyval) :=
  match v with
  | PList l => Ok l
  | PStr s => Ok (map (fun c => PStr [c]) s)
  | PDict d => Ok (map PStr (keys d))
  | _ => Raise TypeError
  end.

(** Unpacking [v] as keyword arguments: [v] must be a mapping. *)
Definition kwargs (v : pyval) : res dict :=
  match v with
  | PDict d => Ok d
  | _ => Raise TypeError
  end.

(** Binding keyword arguments to a dataclass [__init__]: an unexpected
    keyword and a missing field without default are both [TypeError]. *)
Definition bind_kwargs (required optional : list str) (kw : dict)
  : res unit :=
  if forallb (fun k => mem k (required ++ optional)) (keys kw)
     && forallb (fun f => mem f (keys kw)) required
  then Ok tt
  else Raise TypeError.

Definition arg (kw : dict) (name : str) : pyval :=
  match dict_get name kw with
  | Some v => v
  | None => PNone
  end.

(** ** The dataclasses *)

Module yts_torrent.

Record t := mk {
  url : pyval;
  hash : pyval;
  quality : pyval;
  type : pyval;
  is_repack : pyval;
  video_codec : pyval;
  bit_depth : pyval;
  audio_channels : pyval;
  seeds : pyval;
  peers : pyval;
  size : pyval;
  size_bytes : pyval;
  date_uploaded : pyval;
  date_uploaded_unix : pyval
}.

Definition fields : list str :=
  ["url"; "hash"; "quality"; "type"; "is_repack"; "video_codec";
   "bit_depth"; "audio_channels"; "seeds"; "peers"; "size"; "size_bytes";
   "date_uploaded"; "date_uploaded_unix"].

(** [yts_torrent( **kw)] *)
Definition new (kw : dict) : res t :=
  let? _ := bind_kwargs fields [] kw in
  Ok {| url := arg kw "url";
        hash := arg kw "hash";
        quality := arg kw "quality";
        type := arg kw "type";
        is_repack := arg kw "is_repack";
        video_codec := arg kw "video_codec";
        bit_depth := arg kw "bit_depth";
        audio_channels := arg kw "audio_channels";
        seeds := arg kw "seeds";
        peers := arg kw "peers";
        size := arg kw "size";
        size_bytes := arg kw "size_bytes";
        date_uploaded := arg kw "date_uploaded";
        date_uploaded_unix := arg kw "date_uploaded_unix" |}.

End yts_torrent.

Module yts_movie.

Record t := mk {
  id : pyval;
  url : pyval;
  imdb_code : pyval;
  title : pyval;
  title_english : pyval;
  title_long : pyval;
  slug : pyval;
  year : pyval;
  rating : pyval;
  runtime : pyval;
  genres : pyval;
  summary : pyval;
  description_full : pyval;
  synopsis : pyval;
  yt_trailer_code : pyval;
  language : pyval;
  mpa_rating : pyval;
  background_image : pyval;
  background_image_original : pyval;
  small_cover_image : pyval;
  medium_cover_image : pyval;
  large_cover_image : pyval;
  state : pyval;
  torrents : list yts_torrent.t;
  date_uploaded : pyval;
  date_uploaded_unix : pyval
}.

Definition fields : list str :=
  ["id"; "url"; "imdb_code"; "title"; "title_english"; "title_long";
   "slug"; "year"; "rating"; "runtime"; "genres"; "summary";
   "description_full"; "synopsis"; "yt_trailer_code"; "language";
   "mpa_rating"; "background_image"; "background_image_original";
   "small_cover_image"; "medium_cover_image"; "large_cover_image";
   "state"; "torrents"; "date_uploaded"; "date_uploaded_unix"].

(** [__post_init__]:
    [list(yts_torrent( **torrent) for torrent in self.torrents)] *)
Definition post_init (raw_torrents : pyval) : res (list yts_torrent.t) :=
  let? items := py_iter raw_torrents in
  map_res (fun torrent => let? kw := kwargs torrent in yts_torrent.new kw)
          items.

(** [yts_movie( **kw)] *)
Definition new (kw : dict) : res t :=
  let? _ := bind_kwargs fields [] kw in
  let? ts := post_init (arg kw "torrents") in
  Ok {| id := arg kw "id";
        url := arg kw "url";
        imdb_code := arg kw "imdb_code";
        title := arg kw "title";
        title_english := arg kw "title_english";
        title_long := arg kw "title_long";
        slug := arg kw "slug";
        year := arg kw "year";
        rating := arg kw "rating";
        runtime := arg kw "runtime";
        genres := arg kw "genres";
        summary := arg kw "summary";
        description_full := arg kw "description_full";
        synopsis := arg kw "synopsis";
        yt_trailer_code := arg kw "yt_trailer_code";
        language := arg kw "language";
        mpa_rating := arg kw "mpa_rating";
        background_image := arg kw "background_image";
        background_image_original := arg kw "background_image_original";
        small_cover_image := arg kw "small_cover_image";
        medium_cover_image := arg kw "medium_cover_image";
        large_cover_image := arg kw "large_cover_image";
        state := arg kw "state";
        torrents := ts;
        date_uploaded := arg kw "date_uploaded";
        date_uploaded_unix := arg kw "date_uploaded_unix" |}.

End yts_movie.

Module yts_data.

(** [movies] after [__post_init__]: converted when it was truthy, left
    as received (or as the default [None]) otherwise. *)
Inductive movies_attr :=
| Converted (l : list yts_movie.t)
| Unconverted (v : pyval).

Record t := mk {
  movie_count : pyval;
  limit : pyval;
  page_number : pyval;
  movies : movies_attr
}.

Definition required : list str := ["movie_count"; "limit"; "page_number"].
Definition optional : list str := ["movies"].

(** [__post_init__] *)
Definition post_init (raw_movies : pyval) : res movies_attr :=
  if py_truthy raw_movies then
    let? items := py_iter raw_movies in
    let? ms :=
      map_res (fun movie => let? kw := kwargs movie in yts_movie.new kw)
              items in
    Ok (Converted ms)
  else Ok (Unconverted raw_movies).

(** [yts_data( **kw)] *)
Definition new (kw : dict) : res t :=
  let? _ := bind_kwargs required optional kw in
  let? ms := post_init (arg kw "movies") in
  Ok {| movie_count := arg kw "movie_count";
        limit := arg kw "limit";
        page_number := arg kw "page_number";
        movies := ms |}.

End yts_data.

Module yts_response.

Record t := mk {
  status : pyval;
  status_message : pyval;
  data : yts_data.t
}.

Definition fields : list str := ["status"; "status_message"; "data"].

(** [yts_response( **kw)], with [__post_init__]:
    [self.data = yts_data( **self.data)] *)
Definition new (kw : dict) : res t :=
  let? _ := bind_kwargs fields [] kw in
  let? dkw := kwargs (arg kw "data") in
  let? d := yts_data.new dkw in
  Ok {| status := arg kw "status";
        status_message := arg kw "status_message";
        data := d |}.

End yts_response.

(** [yts.convert_response]: keep the items of [api_response] whose key is
    a field of [yts_response], then construct. *)
Definition convert_response (api_response : pyval) : res yts_response.t :=
  match api_response with
  | PDict items =>
      yts_response.new
        (filter (fun kv => mem (fst kv) yts_response.fields) items)
  | _ => Raise AttributeError
  end.

(** ** yts.search *)

(** The dictionary handed to [prettyPrinter]. *)
Record formatTorrent := {
  link : pyval;
  name : str;
  size : pyval;
  seeds : str;
  leech : str;
  engine_url : str;
  desc_link : pyval;
  pub_date : pyval
}.

(** What a run of [search] does to the outside world, in order. *)
Inductive event :=
| EvFetch (url : str)
| EvPrint (v : pyval)
| EvEmit (r : formatTorrent).

Definition trace := list event.

Fixpoint fetch_urls (tr : trace) : list str :=
  match tr with
  | [] => []
  | EvFetch u :: tr' => u :: fetch_urls tr'
  | _ :: tr' => fetch_urls tr'
  end.

Fixpoint emitted (tr : trace) : list formatTorrent :=
  match tr with
  | [] => []
  | EvEmit r :: tr' => r :: emitted tr'
  | _ :: tr' => emitted tr'
  end.

Fixpoint printed (tr : trace) : list pyval :=
  match tr with
  | [] => []
  | EvPrint v :: tr' => v :: printed tr'
  | _ :: tr' => printed tr'
  end.

(** Computations of [search]: they extend the trace and return or raise. *)
Definition M (A : Type) := trace -> res A * trace.

Definition ret {A} (a : A) : M A := fun tr => (Ok a, tr).

Definition bind {A B} (m : M A) (k : A -> M B) : M B :=
  fun tr =>
    match m tr with
    | (Ok a, tr') => k a tr'
    | (Raise e, tr') => (Raise e, tr')
    end.

Definition lift {A} (r : res A) : M A := fun tr => (r, tr).

Declare Scope M_scope.
Delimit Scope M_scope with M.
Notation "x <- m ;; k" := (bind m (fun x => k))
  (at level 61, m at next level, right associativity) : M_scope.
Notation "m ;; k" := (bind m (fun _ => k))
  (at level 61, right associativity) : M_scope.

(** [for x in l: body(x)] *)
Fixpoint for_each {A} (l : list A) (body : A -> M unit) : M unit :=
  match l with
  | [] => ret tt
  | x :: l' => bind (body x) (fun _ => for_each l' body)
  end.

(** [range(n)] *)
Definition range (n : Z) : list Z :=
  map Z.of_nat (seq 0 (Z.to_nat n)).

(** A filter variable ([search_codec], [search_resolution]) used as a
    condition: [None] and the empty string are false. *)
Definition is_set (f : option str) : bool :=
  match f with
  | Some s => negb (str_eqb s "")
  | None => false
  end.

(** [torrent_attr != search_filter], evaluated only when the filter is
    set. *)
Definition differs (v : pyval) (f : option str) : bool :=
  match f with
  | Some s => negb (py_eq_str v s)
  | None => match v with PNone => false | _ => true end
  end.

Definition url : str := "https://yts.bz/".
Definition api_url : str := "https://yts.bz/api/v2/list_movies.json?".

Section Search.

(** Collaborators of [search] that are not part of the plugin. *)

(** [urllib.parse.unquote] *)
Variable unquote : str -> str.
(** [urllib.parse.urlencode] *)
Variable urlencode : params -> str.
(** [helpers.retrieve_url]; the first argument counts the fetches made
    before this one, so the remote may answer the same URL differently
    over time. *)
Variable retrieve_url : nat -> str -> res str.
(** [json.loads] *)
Variable json_loads : str -> res pyval.
(** [str(v)] for a list or a dict. *)
Variable repr_container : pyval -> str.

(** [str(v)], also the rendering of [{v}] in an f-string. *)
Definition py_str (v : pyval) : str :=
  match v with
  | PStr s => s
  | PInt n => str_of_Z n
  | PNone => "None"
  | PBool true => "True"
  | PBool false => "False"
  | _ => repr_container v
  end.

Definition fetch (u : str) : M str :=
  fun tr => (retrieve_url (length (fetch_urls tr)) u, tr ++ [EvFetch u]).

Definition print (v : pyval) : M unit :=
  fun tr => (Ok tt, tr ++ [EvPrint v]).

Definition prettyPrinter (r : formatTorrent) : M unit :=
  fun tr => (Ok tt, tr ++ [EvEmit r]).

Open Scope M_scope.

(** [self.convert_response(json.loads(retrieve_url(u)))] *)
Definition get_response (u : str) : M yts_response.t :=
  body <- fetch u ;;
  v <- lift (json_loads body) ;;
  lift (convert_response v).

(** lines 187-196 *)
Definition format_torrent (movie : yts_movie.t) (torrent : yts_torrent.t)
  : formatTorrent :=
  {| link := yts_torrent.url torrent;
     name := py_str (yts_movie.title_long movie) ++ " ["
             ++ py_str (yts_torrent.quality torrent) ++ "] ["
             ++ py_str (yts_torrent.video_codec torrent) ++ "] ["
             ++ py_str (yts_torrent.type torrent) ++ "] ["
             ++ py_str (yts_torrent.audio_channels torrent) ++ "] [YTS]";
     size := yts_torrent.size torrent;
     seeds := py_str (yts_torrent.seeds torrent);
     leech := py_str (yts_torrent.peers torrent);
     engine_url := url;
     desc_link := yts_movie.url movie;
     pub_date := yts_torrent.date_uploaded_unix torrent |}.

(** The two [continue] conditions of lines 183-186. *)
Definition skipped (codec resolution : option str)
           (torrent : yts_torrent.t) : bool :=
  (is_set codec && differs (yts_torrent.video_codec torrent) codec)
  || (is_set resolution
      && differs (yts_torrent.quality torrent) resolution).

(** The records that the movies of one page give rise to: for each
    movie in order, its torrents that are not skipped, in order. *)
Definition page_emits (codec resolution : option str)
           (ms : list yts_movie.t) : list formatTorrent :=
  flat_map (fun movie =>
              map (format_torrent movie)
                  (filter (fun t => negb (skipped codec resolution t))
                          (yts_movie.torrents movie)))
           ms.

(** Body of [for torrent in movie.torrents] (lines 183-197). *)
Definition torrent_body (codec resolution : option str)
           (movie : yts_movie.t) (torrent : yts_torrent.t) : M unit :=
  if is_set codec && differs (yts_torrent.video_codec torrent) codec
  then ret tt
  else if is_set resolution
          && differs (yts_torrent.quality torrent) resolution
  then ret tt
  else prettyPrinter (format_torrent movie torrent).

(** [for movie in api_result.data.movies]: the movies iterated over.
    An unconverted attribute is iterated as it is: [None] raises, an
    empty container yields nothing, and an item that is not a
    [yts_movie] has no attribute [torrents]. *)
Definition iter_movies (ms : yts_data.movies_attr)
  : res (list yts_movie.t) :=
  match ms with
  | yts_data.Converted l => Ok l
  | yts_data.Unconverted v =>
      let? items := py_iter v in
      match items with
      | [] => Ok []
      | _ :: _ => Raise AttributeError
      end
  end.

(** The URL of the first request: [self.api_url] followed by the
    encoded parameters. *)
Definition first_url (what_arg : str) : str :=
  api_url ++ urlencode (search_params (parse (unquote what_arg))).

(** [f"{search_url}&page={page_no + 1}"] *)
Definition page_url (search_url : str) (page_no : Z) : str :=
  search_url ++ "&page=" ++ str_of_Z (page_no + 1).

(** Body of [for page_no in range(...)] (lines 178-197). *)
Definition page_body (codec resolution : option str) (search_url : str)
           (page_no : Z) : M unit :=
  api_result <- get_response (page_url search_url page_no) ;;
  movies <-
    lift (iter_movies (yts_data.movies (yts_response.data api_result))) ;;
  for_each movies (fun movie =>
    for_each (yts_movie.torrents movie)
             (torrent_body codec resolution movie)).

(** [(movie_count // limit) + 1] *)
Definition page_count (d : yts_data.t) : res Z :=
  let? q := py_floordiv (yts_data.movie_count d) (yts_data.limit d) in
  Ok (q + 1)%Z.

(** [yts.search(what, cat)]; [cat] is not used. *)
Definition search (what_arg : str) : M unit :=
  let st := parse (unquote what_arg) in
  let search_url := first_url what_arg in
  api_result <- get_response search_url ;;
  if negb (py_eq_str (yts_response.status api_result) "ok") then
    msg <- lift (py_add (yts_response.status api_result)
                        (yts_response.status_message api_result)) ;;
    print msg
  else if py_eq_int (yts_data.movie_count (yts_response.data api_result)) 0
  then ret tt
  else
    n <- lift (page_count (yts_response.data api_result)) ;;
    for_each (range n)
             (page_body (search_codec st) (search_resolution st)
                        search_url).

(** A whole run, from the empty trace. *)
Definition run_search (what_arg : str) : res unit * trace :=
  search what_arg [].

End Search.

(** ** Specification vocabulary *)

(** The language of a pattern, read declaratively. *)
Inductive matches : regex -> str -> Prop :=
| MEps : matches Eps []
| MLit c : matches (Lit c) [c]
| MCls (p : ascii -> bool) c : p c = true -> matches (Cls p) [c]
| MCat r1 r2 w1 w2 :
    matches r1 w1 -> matches r2 w2 -> matches (Cat r1 r2) (w1 ++ w2)
| MAltL r1 r2 w : matches r1 w -> matches (Alt r1 r2) w
| MAltR r1 r2 w : matches r2 w -> matches (Alt r1 r2) w
| MOptSome r w : matches r w -> matches (Opt r) w
| MOptNone r : matches (Opt r) []
| MPlus (p : ascii -> bool) c w :
    p c = true -> Forall (fun x => p x = true) w ->
    matches (ClsPlus p) (c :: w).

(** One match found by a left-to-right scan: where it starts, how many
    characters it spans, and its group 1. *)
Record occurrence := {
  occ_start : nat;
  occ_len : nat;
  occ_group : str
}.

(** [re.finditer(p, s)]: the successive non-overlapping matches.  [pos] is
    the position of the head of [s] in the scanned text, [skip] the number
    of characters of the previous match that still lie ahead. *)
Fixpoint finditer_from (p : pattern) (skip pos : nat) (s : str)
  : list occurrence :=
  match skip with
  | S k =>
      match s with
      | [] => []
      | _ :: s' => finditer_from p k (S pos) s'
      end
  | O =>
      match pmatch p s with
      | Some (g, rest) =>
          let n := length s - length rest in
          {| occ_start := pos; occ_len := n; occ_group := g |}
          :: match s with
             | [] => []
             | _ :: s' => finditer_from p (pred n) (S pos) s'
             end
      | None =>
          match s with
          | [] => []
          | _ :: s' => finditer_from p 0 (S pos) s'
          end
      end
  end.

Definition finditer (p : pattern) (s : str) : list occurrence :=
  finditer_from p 0 0 s.

(** [o] is a match of [p] in [s], at the position and of the length
    recorded. *)
Definition occurs (p : pattern) (s : str) (o : occurrence) : Prop :=
  exists pre h post,
    s = pre ++ h ++ occ_group o ++ post
    /\ length pre = occ_start o
    /\ (length h + length (occ_group o))%nat = occ_len o
    /\ matches (pat_head p) h
    /\ matches (pat_group p) (occ_group o).

Definition in_span (i : nat) (o : occurrence) : bool :=
  (occ_start o <=? i)%nat && (i <? occ_start o + occ_len o)%nat.

(** [s] without the characters that lie in one of the spans; [pos] is the
    position of the head of [s]. *)
Fixpoint delete_at (spans : list occurrence) (pos : nat) (s : str) : str :=
  match s with
  | [] => []
  | c :: s' =>
      if existsb (in_span pos) spans then delete_at spans (S pos) s'
      else c :: delete_at spans (S pos) s'
  end.

Definition delete_spans (spans : list occurrence) (s : str) : str :=
  delete_at spans 0 s.

(** [subseq a b]: [a] is [b] with some characters left out. *)
Inductive subseq : str -> str -> Prop :=
| SubNil : subseq [] []
| SubKeep c a b : subseq a b -> subseq (c :: a) (c :: b)
| SubDrop c a b : subseq a b -> subseq a (c :: b).

(** The four tag extraction steps, in source order. *)
Inductive tag := Quality | Codec | Rating | Genre.

Definition tag_pattern (t : tag) : pattern :=
  match t with
  | Quality => quality_rstring
  | Codec => codec_rstring
  | Rating => rating_rstring
  | Genre => genre_rstring
  end.

Definition tag_step (t : tag) : parsed -> parsed :=
  match t with
  | Quality => parse_quality
  | Codec => parse_codec
  | Rating => parse_rating
  | Genre => parse_genre
  end.

(** The step of tag [t] followed by all the later steps. *)
Definition steps_from (t : tag) (st : parsed) : parsed :=
  match t with
  | Quality =>
      parse_page (parse_genre (parse_rating (parse_codec (parse_quality st))))
  | Codec => parse_page (parse_genre (parse_rating (parse_codec st)))
  | Rating => parse_page (parse_genre (parse_rating st))
  | Genre => parse_page (parse_genre st)
  end.

(** The local variable that the step of tag [t] binds. *)
Definition tag_value (t : tag) (st : parsed) : option str :=
  match t with
  | Quality => search_resolution st
  | Codec => search_codec st
  | Rating => min_rating st
  | Genre => genre st
  end.

(** What the step stores from group 1. *)
Definition tag_canon (t : tag) (g : str) : str :=
  match t with
  | Codec => "x" ++ g
  | _ => g
  end.

(** The variables once the resolution and codec steps have run. *)
Definition after_codec (w : str) : parsed :=
  parse_codec (parse_quality (parse_start w)).

(** The resolutions that the quality pattern can capture. *)
Definition resolutions : list str :=
  ["2160p"; "1440p"; "1080p"; "720p"; "480p"; "240p"; "3D"].

(** ** A scripted remote, for closed examples *)

Module Script.

(** The [n]-th fetch returns the [n]-th body, whatever the URL. *)
Definition retrieve_url (bodies : list str) (n : nat) (_ : str)
  : res str :=
  match nth_error bodies n with
  | Some b => Ok b
  | None => Raise (External "URLError")
  end.

(** Bodies are decoded by table lookup. *)
Definition json_loads (table : list (str * pyval)) (body : str)
  : res pyval :=
  match dict_get body table with
  | Some v => Ok v
  | None => Raise (External "JSONDecodeError")
  end.

Definition unquote (s : str) : str := s.

Definition render (v : param) : str :=
  match v with
  | PvStr s => s
  | PvSet l => "{" ++ concat (map (fun e => "'" ++ e ++ "'") l) ++ "}"
  end.

(** [key=value] pairs joined by [&], without percent-escaping. *)
Fixpoint urlencode (d : params) : str :=
  match d with
  | [] => []
  | [(k, v)] => k ++ "=" ++ render v
  | (k, v) :: d' => k ++ "=" ++ render v ++ "&" ++ urlencode d'
  end.

Definition repr_container (_ : pyval) : str := "<container>".

Definition torrent (quality codec : str) : pyval :=
  PDict [("url", PStr ("https://yts.bz/torrent/" ++ quality ++ codec));
         ("hash", PStr "0123ABCD");
         ("quality", PStr quality);
         ("type", PStr "web");
         ("is_repack", PStr "0");
         ("video_codec", PStr codec);
         ("bit_depth", PStr "8");
         ("audio_channels", PStr "2.0");
         ("seeds", PInt 12);
         ("peers", PInt 3);
         ("size", PStr "1.2 GB");
         ("size_bytes", PInt 1288490189);
         ("date_uploaded", PStr "2024-01-01 00:00:00");
         ("date_uploaded_unix", PInt 1704067200)].

Definition movie (torrents : list pyval) : pyval :=
  PDict [("id", PInt 1);
         ("url", PStr "https://yts.bz/movies/dune-2021");
         ("imdb_code", PStr "tt1160419");
         ("title", PStr "Dune");
         ("title_english", PStr "Dune");
         ("title_long", PStr "Dune (2021)");
         ("slug", PStr "dune-2021");
         ("year", PInt 2021);
         ("rating", PInt 8);
         ("runtime", PInt 155);
         ("genres", PList [PStr "Action"; PStr "Sci-Fi"]);
         ("summary", PStr "");
         ("description_full", PStr "");
         ("synopsis", PStr "");
         ("yt_trailer_code", PStr "");
         ("language", PStr "en");
         ("mpa_rating", PStr "PG-13");
         ("background_image", PStr "");
         ("background_image_original", PStr "");
         ("small_cover_image", PStr "");
         ("medium_cover_image", PStr "");
         ("large_cover_image", PStr "");
         ("state", PStr "ok");
         ("torrents", PList torrents);
         ("date_uploaded", PStr "2024-01-01 00:00:00");
         ("date_uploaded_unix", PInt 1704067200)].

Definition data (movie_count limit page_number : Z)
           (extra : list (str * pyval)) : pyval :=
  PDict ([("movie_count", PInt movie_count); ("limit", PInt limit);
          ("page_number", PInt page_number)] ++ extra).

Definition response (status message : str) (d : pyval) : pyval :=
  PDict [("status", PStr status); ("status_message", PStr message);
         ("data", d);
         ("@meta", PDict [("api_version", PInt 2)])].

(** The objects that [torrent], [movie] and [response] decode to. *)
Definition torrent_rec (quality codec : str) : yts_torrent.t :=
  {| yts_torrent.url :=
       PStr ("https://yts.bz/torrent/" ++ quality ++ codec);
     yts_torrent.hash := PStr "0123ABCD";
     yts_torrent.quality := PStr quality;
     yts_torrent.type := PStr "web";
     yts_torrent.is_repack := PStr "0";
     yts_torrent.video_codec := PStr codec;
     yts_torrent.bit_depth := PStr "8";
     yts_torrent.audio_channels := PStr "2.0";
     yts_torrent.seeds := PInt 12;
     yts_torrent.peers := PInt 3;
     yts_torrent.size := PStr "1.2 GB";
     yts_torrent.size_bytes := PInt 1288490189;
     yts_torrent.date_uploaded := PStr "2024-01-01 00:00:00";
     yts_torrent.date_uploaded_unix := PInt 1704067200 |}.

Definition movie_rec (torrents : list yts_torrent.t) : yts_movie.t :=
  {| yts_movie.id := PInt 1;
     yts_movie.url := PStr "https://yts.bz/movies/dune-2021";
     yts_movie.imdb_code := PStr "tt1160419";
     yts_movie.title := PStr "Dune";
     yts_movie.title_english := PStr "Dune";
     yts_movie.title_long := PStr "Dune (2021)";
     yts_movie.slug := PStr "dune-2021";
     yts_movie.year := PInt 2021;
     yts_movie.rating := PInt 8;
     yts_movie.runtime := PInt 155;
     yts_movie.genres := PList [PStr "Action"; PStr "Sci-Fi"];
     yts_movie.summary := PStr "";
     yts_movie.description_full := PStr "";
     yts_movie.synopsis := PStr "";
     yts_movie.yt_trailer_code := PStr "";
     yts_movie.language := PStr "en";
     yts_movie.mpa_rating := PStr "PG-13";
     yts_movie.background_image := PStr "";
     yts_movie.background_image_original := PStr "";
     yts_movie.small_cover_image := PStr "";
     yts_movie.medium_cover_image := PStr "";
     yts_movie.large_cover_image := PStr "";
     yts_movie.state := PStr "ok";
     yts_movie.torrents := torrents;
     yts_movie.date_uploaded := PStr "2024-01-01 00:00:00";
     yts_movie.date_uploaded_unix := PInt 1704067200 |}.

Definition response_rec (status message : str)
           (movie_count limit page_number : Z)
           (movies : yts_data.movies_attr) : yts_response.t :=
  {| yts_response.status := PStr status;
     yts_response.status_message := PStr message;
     yts_response.data :=
       {| yts_data.movie_count := PInt movie_count;
          yts_data.limit := PInt limit;
          yts_data.page_number := PInt page_number;
          yts_data.movies := movies |} |}.

(** Canned pages. *)
Definition page_full : pyval :=
  response "ok" "Query was successful"
    (data 20 20 1
       [("movies",
         PList [movie [torrent "1080p" "x264"; torrent "1080p" "x265"]])]).

Definition page_full_rec : yts_response.t :=
  response_rec "ok" "Query was successful" 20 20 1
    (yts_data.Converted
       [movie_rec [torrent_rec "1080p" "x264";
                   torrent_rec "1080p" "x265"]]).

(** A page past the last result, with an empty [movies] array. *)
Definition page_empty : pyval :=
  response "ok" "Query was successful"
    (data 20 20 2 [("movies", PList [])]).

(** A page past the last result, without the [movies] field. *)
Definition page_bare : pyval :=
  response "ok" "Query was successful" (data 20 20 2 []).

Definition page_bare_rec : yts_response.t :=
  response_rec "ok" "Query was successful" 20 20 2
    (yts_data.Unconverted PNone).

Definition page_error : pyval :=
  response "error" "Query not successful" (data 0 20 1 []).

Definition page_error_rec : yts_response.t :=
  response_rec "error" "Query not successful" 0 20 1
    (yts_data.Unconverted PNone).

Definition page_zero_limit : pyval :=
  response "ok" "Query was successful" (data 5 0 1 []).

Definition page_zero_limit_rec : yts_response.t :=
  response_rec "ok" "Query was successful" 5 0 1
    (yts_data.Unconverted PNone).

(** A payload that does not decode: no [data]. *)
Definition page_broken : pyval :=
  PDict [("status", PStr "ok"); ("status_message", PStr "")].

Definition table : list (str * pyval) :=
  [("full", page_full); ("empty", page_empty); ("bare", page_bare);
   ("error", page_error); ("zero", page_zero_limit);
   ("broken", page_broken)].

(** [obj] with one more field. *)
Definition with_field (k : str) (v : pyval) (obj : pyval) : pyval :=
  match obj with
  | PDict d => PDict (d ++ [(k, v)])
  | _ => obj
  end.

Definition run (bodies : list str) (table : list (str * pyval))
           (query : str) : res unit * trace :=
  run_search unquote urlencode (retrieve_url bodies) (json_loads table)
             repr_container query.

End Script.

(** ** Vocabulary for the further properties *)

(** The query parameters that the extracted values call for, in the order
    in which the steps store them. *)
Definition expected_params (st : parsed) : params :=
  match search_resolution st with
  | Some r =>
      [("quality",
        PvStr match search_codec st with
              | Some c => r ++ "." ++ c
              | None => r
              end)]
  | None => []
  end
  ++ match min_rating st with
     | Some d => [("minimum_rating", PvSet [d])]
     | None => []
     end
  ++ match genre st with
     | Some g => [("genre", PvStr g)]
     | None => []
     end
  ++ match what st with
     | [] => []
     | _ => [("query_term", PvStr (what st))]
     end.

(** No whitespace at either end. *)
Definition is_trimmed (s : str) : bool :=
  match s with
  | [] => true
  | c :: _ => negb (is_space c) && negb (is_space (last s c))
  end.

(** The characters without which no pattern of the plugin can match:
    [=] (rating, genre, page), [p] and [D] (resolution), [x] and [h]
    (codec), [&] (page). *)
Definition is_tag_char (c : ascii) : bool :=
  existsb (ascii_eqb c) "=pDxh&".

(** The [k]-th fetch, of the URL [u], is answered by a body that decodes
    into a response whose movies iterate as [ms]. *)
Definition page_answers (retrieve_url : nat -> str -> res str)
           (json_loads : str -> res pyval)
           (k : nat) (u : str) (ms : list yts_movie.t) : Prop :=
  exists body v resp,
    retrieve_url k u = Ok body
    /\ json_loads body = Ok v
    /\ convert_response v = Ok resp
    /\ iter_movies (yts_data.movies (yts_response.data resp)) = Ok ms.

(** The [k]-th fetch, of the URL [u], ends in the exception [e]: in the
    transport, in [json.loads], in the decoding, or when the movies of
    the decoded page are iterated. *)
Definition page_fails (retrieve_url : nat -> str -> res str)
           (json_loads : str -> res pyval)
           (k : nat) (u : str) (e : exn) : Prop :=
  retrieve_url k u = Raise e
  \/ (exists body, retrieve_url k u = Ok body /\ json_loads body = Raise e)
  \/ (exists body v,
         retrieve_url k u = Ok body /\ json_loads body = Ok v
         /\ convert_response v = Raise e)
  \/ (exists body v resp,
         retrieve_url k u = Ok body /\ json_loads body = Ok v
         /\ convert_response v = Ok resp
         /\ iter_movies (yts_data.movies (yts_response.data resp))
            = Raise e).

(** The first request ends in the exception [e] before a response is
    available. *)
Definition first_request_fails (retrieve_url : nat -> str -> res str)
           (json_loads : str -> res pyval) (u : str) (e : exn) : Prop :=
  retrieve_url 0 u = Raise e
  \/ (exists body, retrieve_url 0 u = Ok body /\ json_loads body = Raise e)
  \/ (exists body v,
         retrieve_url 0 u = Ok body /\ json_loads body = Ok v
         /\ convert_response v = Raise e).

(** What the loop leaves in the trace for the pages [first], ...,
    [first + count - 1] when page [i] iterates as [movies i]. *)
Definition pages_trace (repr_container : pyval -> str)
           (codec resolution : option str) (search_url : str)
           (movies : nat -> list yts_movie.t) (first count : nat)
  : trace :=
  flat_map (fun i =>
              EvFetch (page_url search_url (Z.of_nat i))
              :: map EvEmit
                   (page_emits repr_container codec resolution (movies i)))
           (seq first count).

(** The record [r] was built from a torrent that passes both filters. *)
Definition passes_filters (repr_container : pyval -> str)
           (codec resolution : option str) (r : formatTorrent) : Prop :=
  exists movie torrent,
    r = format_torrent repr_container movie torrent
    /\ (forall c, codec = Some c ->
                  yts_torrent.video_codec torrent = PStr c)
    /\ (forall q, resolution = Some q ->
                  yts_torrent.quality torrent = PStr q).

(** More canned pages. *)
Module Cases.

(** An [ok] response without results. *)
Definition page_none : pyval :=
  Script.response "ok" "Query was successful" (Script.data 0 20 1 []).

Definition page_none_rec : yts_response.t :=
  Script.response_rec "ok" "Query was successful" 0 20 1
    (yts_data.Unconverted PNone).

(** The movies of the pages of the remote [full], [full], [empty] (or
    [bare]), by loop index. *)
Definition movies (i : nat) : list yts_movie.t :=
  match i with
  | O => [Script.movie_rec [Script.torrent_rec "1080p" "x264";
                            Script.torrent_rec "1080p" "x265"]]
  | S _ => []
  end.

Definition dune_url : str :=
  "https://yts.bz/api/v2/list_movies.json?query_term=dune".

Definition dune_x265 : formatTorrent :=
  format_torrent Script.repr_container
    (Script.movie_rec [Script.torrent_rec "1080p" "x264";
                       Script.torrent_rec "1080p" "x265"])
    (Script.torrent_rec "1080p" "x265").

End Cases.

Module Cases2.

(** An error response whose status is [null]. *)
Definition page_null_status : pyval :=
  PDict [("status", PNone); ("status_message", PStr "boom");
         ("data", Script.data 0 20 1 [])].

Definition page_null_status_rec : yts_response.t :=
  {| yts_response.status := PNone;
     yts_response.status_message := PStr "boom";
     yts_response.data :=
       {| yts_data.movie_count := PInt 0;
          yts_data.limit := PInt 20;
          yts_data.page_number := PInt 1;
          yts_data.movies := yts_data.Unconverted PNone |} |}.

(** An [ok] response with a negative page size. *)
Definition page_negative_limit : pyval :=
  Script.response "ok" "Query was successful" (Script.data 5 (-1) 1 []).

Definition page_negative_limit_rec : yts_response.t :=
  Script.response_rec "ok" "Query was successful" 5 (-1) 1
    (yts_data.Unconverted PNone).

End Cases2.

(** ** Vocabulary for the revised statements *)

(** [&page=\d+] as head and group: its regex is [search_rstring]. *)
Definition page_rstring : pattern :=
  {| pat_head := lits "&page="; pat_group := ClsPlus is_digit |}.

(** [s] with the characters of every occurrence of [p] deleted, then
    trimmed. *)
Definition remove_all (p : pattern) (s : str) : str :=
  strip (delete_spans (finditer p s) s).

(** The keys of [kw] are exactly [fields]. *)
Definition exact_keys (fields : list str) (kw : dict) : Prop :=
  forall k, In k (keys kw) <-> In k fields.

(** The declared shape of the payload, level by level. *)
Definition torrent_shaped (v : pyval) : Prop :=
  exists kw, v = PDict kw /\ exact_keys yts_torrent.fields kw.

Definition movie_shaped (v : pyval) : Prop :=
  exists kw,
    v = PDict kw
    /\ exact_keys yts_movie.fields kw
    /\ exists items,
         py_iter (arg kw "torrents") = Ok items
         /\ Forall torrent_shaped items.

Definition data_shaped (kw : dict) : Prop :=
  (forall k, In k (keys kw) ->
             In k (yts_data.required ++ yts_data.optional))
  /\ (forall f, In f yts_data.required -> In f (keys kw))
  /\ (py_truthy (arg kw "movies") = true ->
      exists items,
        py_iter (arg kw "movies") = Ok items
        /\ Forall movie_shaped items).

Definition response_shaped (items : dict) : Prop :=
  (forall f, In f yts_response.fields -> In f (keys items))
  /\ exists dkw,
       dict_get "data" items = Some (PDict dkw) /\ data_shaped dkw.

Module Cases3.

(** An error response whose message is [null]. *)
Definition page_null_message : pyval :=
  PDict [("status", PStr "error"); ("status_message", PNone);
         ("data", Script.data 0 20 1 [])].

Definition dune_1080p_x264 : formatTorrent :=
  format_torrent Script.repr_container
    (Script.movie_rec [Script.torrent_rec "1080p" "x264";
                       Script.torrent_rec "1080p" "x265"])
    (Script.torrent_rec "1080p" "x264").

End Cases3.

(** * Properties *)

(** ** Strings *)

Lemma str_eqb_eq (a b : str) : str_eqb a b = true <-> a = b.
Proof.
  revert b; induction a as [|x a IH]; intros [|y b]; simpl;
    try (split; [discriminate | congruence]); try tauto.
  rewrite andb_true_iff. unfold ascii_eqb. rewrite Ascii.eqb_eq, IH.
  split; [intros [-> ->]; reflexivity | intros H; inversion H; auto].
Qed.

Lemma str_eqb_refl (a : str) : str_eqb a a = true.
Proof. apply str_eqb_eq; reflexivity. Qed.

Lemma str_eqb_neq (a b : str) : str_eqb a b = false <-> a <> b.
Proof.
  rewrite <- str_eqb_eq. destruct (str_eqb a b); split; congruence.
Qed.

Lemma consumed_app (w rest : str) : consumed (w ++ rest) rest = w.
Proof.
  unfold consumed. rewrite length_app.
  replace (length w + length rest - length rest)%nat with (length w) by lia.
  rewrite firstn_app, firstn_all, Nat.sub_diag. simpl. apply app_nil_r.
Qed.

(** ** The matcher agrees with the declarative reading of patterns *)

Lemma plus_rests_sound p s rest :
  In rest (plus_rests p s) ->
  exists c w, s = c :: w ++ rest /\ p c = true
              /\ Forall (fun x => p x = true) w.
Proof.
  revert rest; induction s as [|c s IH]; simpl; intros rest H; [tauto|].
  destruct (p c) eqn:Hc; [|contradiction].
  apply in_app_or in H. destruct H as [H | [<- | []]].
  - destruct (IH _ H) as (c' & w & -> & Hc' & Hw).
    exists c, (c' :: w). repeat split; auto.
  - exists c, []. repeat split; auto.
Qed.

Lemma plus_rests_complete p w rest :
  Forall (fun x => p x = true) w -> w <> [] ->
  In rest (plus_rests p (w ++ rest)).
Proof.
  induction 1 as [|c w Hc Hw IH]; intros Hne; [congruence|].
  simpl. rewrite Hc. apply in_or_app.
  destruct w as [|c' w'].
  - right. simpl. auto.
  - left. apply IH. discriminate.
Qed.

Lemma rmatch_sound r : forall s rest,
  In rest (rmatch r s) -> exists w, s = w ++ rest /\ matches r w.
Proof.
  induction r as [|c|p|r1 IH1 r2 IH2|r1 IH1 r2 IH2|r1 IH1|p];
    simpl; intros s rest H.
  - destruct H as [<- | []]. exists []. split; [reflexivity | constructor].
  - destruct s as [|x s']; [contradiction|].
    destruct (ascii_eqb x c) eqn:E; [|contradiction].
    apply Ascii.eqb_eq in E. subst x. destruct H as [<- | []].
    exists [c]. split; [reflexivity | constructor].
  - destruct s as [|x s']; [contradiction|].
    destruct (p x) eqn:E; [|contradiction]. destruct H as [<- | []].
    exists [x]. split; [reflexivity | constructor; assumption].
  - apply in_flat_map in H. destruct H as (mid & H1 & H2).
    destruct (IH1 _ _ H1) as (w1 & -> & M1).
    destruct (IH2 _ _ H2) as (w2 & -> & M2).
    exists (w1 ++ w2). rewrite app_assoc. split; [reflexivity|].
    constructor; assumption.
  - apply in_app_or in H. destruct H as [H | H].
    + destruct (IH1 _ _ H) as (w & -> & M). exists w. split; auto.
      apply MAltL; assumption.
    + destruct (IH2 _ _ H) as (w & -> & M). exists w. split; auto.
      apply MAltR; assumption.
  - apply in_app_or in H. destruct H as [H | [<- | []]].
    + destruct (IH1 _ _ H) as (w & -> & M). exists w. split; auto.
      apply MOptSome; assumption.
    + exists []. split; [reflexivity | apply MOptNone].
  - destruct (plus_rests_sound _ _ _ H) as (c & w & -> & Hc & Hw).
    exists (c :: w). split; [reflexivity | constructor; assumption].
Qed.

Lemma rmatch_complete r w :
  matches r w -> forall rest, In rest (rmatch r (w ++ rest)).
Proof.
  induction 1 as [|c|p c Hc|r1 r2 w1 w2 _ IH1 _ IH2|r1 r2 w _ IH
                  |r1 r2 w _ IH|r w _ IH|r|p c w Hc Hw];
    intros rest; simpl.
  - auto.
  - unfold ascii_eqb. rewrite Ascii.eqb_refl. simpl; auto.
  - rewrite Hc. simpl; auto.
  - apply in_flat_map. exists (w2 ++ rest). split.
    + rewrite <- app_assoc. apply IH1.
    + apply IH2.
  - apply in_or_app. left. apply IH.
  - apply in_or_app. right. apply IH.
  - apply in_or_app. left. apply IH.
  - apply in_or_app. right. simpl; auto.
  - apply (plus_rests_complete p (c :: w)).
    + constructor; assumption.
    + discriminate.
Qed.

Lemma matches_lits (s w : str) : matches (lits s) w <-> w = s.
Proof.
  revert w; induction s as [|c s IH]; simpl; intros w.
  - split; [inversion 1; reflexivity | intros ->; constructor].
  - split.
    + inversion 1 as [| | |r1 r2 w1 w2 M1 M2| | | | |]; subst.
      inversion M1; subst. apply IH in M2. subst. reflexivity.
    + intros ->. apply (MCat (Lit c) (lits s) [c] s);
        [constructor | apply IH; auto].
Qed.

Lemma candidates_rests p s :
  map snd (candidates p s) = rmatch (pat_regex p) s.
Proof.
  unfold candidates, pat_regex. simpl.
  induction (rmatch (pat_head p) s) as [|s1 l IH]; simpl; [reflexivity|].
  rewrite map_app, IH, map_map. simpl. rewrite map_id. reflexivity.
Qed.

Lemma pmatch_candidates p s :
  pmatch p s = hd_error (candidates p s).
Proof.
  unfold pmatch. destruct (candidates p s); reflexivity.
Qed.

Lemma match_len_pmatch p s :
  match_len (pat_regex p) s =
  option_map (fun m => (length s - length (snd m))%nat) (pmatch p s).
Proof.
  unfold match_len. rewrite <- candidates_rests, pmatch_candidates.
  destruct (candidates p s) as [|[g rest] l]; reflexivity.
Qed.

Lemma pmatch_sound p s g rest :
  pmatch p s = Some (g, rest) ->
  exists h, s = h ++ g ++ rest
            /\ matches (pat_head p) h /\ matches (pat_group p) g.
Proof.
  rewrite pmatch_candidates. intros H.
  assert (Hin : In (g, rest) (candidates p s)).
  { destruct (candidates p s); simpl in H; [discriminate|].
    injection H as ->. left; reflexivity. }
  unfold candidates in Hin. apply in_flat_map in Hin.
  destruct Hin as (s1 & H1 & H2). apply in_map_iff in H2.
  destruct H2 as (s2 & E & H2). injection E as <- <-.
  destruct (rmatch_sound _ _ _ H1) as (h & -> & Mh).
  destruct (rmatch_sound _ _ _ H2) as (w & -> & Mg).
  exists h. rewrite consumed_app. auto.
Qed.

Lemma re_search_sound p s g :
  re_search p s = Some g ->
  exists pre h rest, s = pre ++ h ++ g ++ rest
                     /\ matches (pat_head p) h /\ matches (pat_group p) g.
Proof.
  induction s as [|c s IH]; simpl.
  - destruct (pmatch p []) as [[g' rest]|] eqn:E; [|discriminate].
    intros [= ->]. destruct (pmatch_sound _ _ _ _ E) as (h & Hs & Mh & Mg).
    exists [], h, rest. auto.
  - destruct (pmatch p (c :: s)) as [[g' rest]|] eqn:E.
    + intros [= ->]. destruct (pmatch_sound _ _ _ _ E) as (h & Hs & Mh & Mg).
      exists [], h, rest. auto.
    + intros H. destruct (IH H) as (pre & h & rest & -> & Mh & Mg).
      exists (c :: pre), h, rest. auto.
Qed.

Lemma pmatch_complete p h g rest :
  matches (pat_head p) h -> matches (pat_group p) g ->
  pmatch p (h ++ g ++ rest) <> None.
Proof.
  intros Mh Mg. unfold pmatch.
  assert (Hin : In (consumed (g ++ rest) rest, rest)
                   (candidates p (h ++ g ++ rest))).
  { unfold candidates. apply in_flat_map. exists (g ++ rest). split.
    - apply rmatch_complete, Mh.
    - apply in_map_iff. exists rest. split; [reflexivity|].
      apply rmatch_complete, Mg. }
  destruct (candidates p (h ++ g ++ rest)); [contradiction | discriminate].
Qed.

(** [re.search] finds a match whenever the text contains one. *)
Lemma re_search_complete p pre h g rest :
  matches (pat_head p) h -> matches (pat_group p) g ->
  re_search p (pre ++ h ++ g ++ rest) <> None.
Proof.
  intros Mh Mg. induction pre as [|c pre IH].
  - simpl app. pose proof (pmatch_complete p h g rest Mh Mg) as Hp.
    destruct (h ++ g ++ rest) as [|c s] eqn:E; simpl;
      destruct (pmatch p _) as [[g' r']|]; congruence.
  - simpl. destruct (pmatch p _) as [[g' r']|]; [discriminate | exact IH].
Qed.

(** ** What group 1 of each tag pattern can capture *)

Ltac invert_matches :=
  repeat match goal with
  | H : matches (lits _) _ |- _ => apply matches_lits in H; subst
  | H : matches Eps _ |- _ => inversion H; clear H; subst
  | H : matches (Alt _ _) _ |- _ => inversion H; clear H; subst
  | H : matches (Cat _ _) _ |- _ => inversion H; clear H; subst
  | H : matches (Lit _) _ |- _ => inversion H; clear H; subst
  | H : matches (Cls _) _ |- _ => inversion H; clear H; subst
  | H : matches (ClsPlus _) _ |- _ => inversion H; clear H; subst
  end.

Lemma quality_group g :
  matches (pat_group quality_rstring) g -> In g resolutions.
Proof.
  cbn [pat_group quality_rstring alts]. intros H.
  invert_matches; simpl; tauto.
Qed.

Lemma codec_group g :
  matches (pat_group codec_rstring) g -> g = "264" \/ g = "265".
Proof.
  cbn [pat_group codec_rstring]. intros H. invert_matches; auto.
Qed.

Lemma rating_group g :
  matches (pat_group rating_rstring) g ->
  exists c, g = [c] /\ is_digit c = true.
Proof.
  cbn [pat_group rating_rstring]. intros H. invert_matches. eauto.
Qed.

Lemma genre_group g :
  matches (pat_group genre_rstring) g ->
  g <> [] /\ Forall (fun c => is_word c = true) g.
Proof.
  cbn [pat_group genre_rstring]. intros H. invert_matches.
  split; [discriminate | constructor; assumption].
Qed.

Lemma tag_group_nonempty t g :
  matches (pat_group (tag_pattern t)) g -> g <> [].
Proof.
  destruct t; simpl tag_pattern; intros H.
  - apply quality_group in H. simpl in H.
    intuition (subst; discriminate).
  - apply codec_group in H. intuition (subst; discriminate).
  - apply rating_group in H. destruct H as (c & -> & _). discriminate.
  - apply genre_group in H. tauto.
Qed.

Lemma re_search_group t s g :
  re_search (tag_pattern t) s = Some g ->
  matches (pat_group (tag_pattern t)) g.
Proof.
  intros H. destruct (re_search_sound _ _ _ H) as (_ & _ & _ & _ & _ & M).
  exact M.
Qed.

(** ** Dictionaries *)

Lemma dict_get_set_same {V} k (v : V) d :
  dict_get k (dict_set k v d) = Some v.
Proof.
  induction d as [|[k' v'] d IH]; simpl.
  - rewrite str_eqb_refl. reflexivity.
  - destruct (str_eqb k' k) eqn:E; simpl; rewrite E; auto.
Qed.

Lemma dict_get_set_other {V} k k' (v : V) d :
  k <> k' -> dict_get k (dict_set k' v d) = dict_get k d.
Proof.
  intros Hne. induction d as [|[k0 v0] d IH]; simpl.
  - destruct (str_eqb k' k) eqn:E; [|reflexivity].
    apply str_eqb_eq in E. congruence.
  - destruct (str_eqb k0 k') eqn:E; simpl.
    + apply str_eqb_eq in E. subst k0.
      destruct (str_eqb k' k) eqn:E'; [|reflexivity].
      apply str_eqb_eq in E'. congruence.
    + destruct (str_eqb k0 k); auto.
Qed.

(** ** The extraction steps leave the other variables alone *)

Lemma parse_quality_found st g :
  re_search quality_rstring (what st) = Some g ->
  parse_quality st =
  {| what := strip (re_sub (pat_regex quality_rstring) (what st));
     search_params := dict_set "quality" (PvStr g) (search_params st);
     search_resolution := Some g;
     search_codec := search_codec st;
     min_rating := min_rating st;
     genre := genre st |}.
Proof. unfold parse_quality. intros ->. reflexivity. Qed.

Lemma parse_codec_resolution st :
  search_resolution (parse_codec st) = search_resolution st.
Proof. unfold parse_codec. destruct (re_search _ _); reflexivity. Qed.

Lemma parse_rating_resolution st :
  search_resolution (parse_rating st) = search_resolution st.
Proof. unfold parse_rating. destruct (re_search _ _); reflexivity. Qed.

Lemma parse_genre_resolution st :
  search_resolution (parse_genre st) = search_resolution st.
Proof. unfold parse_genre. destruct (re_search _ _); reflexivity. Qed.

Lemma parse_rating_codec st :
  search_codec (parse_rating st) = search_codec st.
Proof. unfold parse_rating. destruct (re_search _ _); reflexivity. Qed.

Lemma parse_genre_codec st :
  search_codec (parse_genre st) = search_codec st.
Proof. unfold parse_genre. destruct (re_search _ _); reflexivity. Qed.

Lemma parse_genre_min_rating st :
  min_rating (parse_genre st) = min_rating st.
Proof. unfold parse_genre. destruct (re_search _ _); reflexivity. Qed.

Lemma parse_rating_quality_param st :
  dict_get "quality" (search_params (parse_rating st)) =
  dict_get "quality" (search_params st).
Proof.
  unfold parse_rating. destruct (re_search _ _); [|reflexivity].
  simpl. apply dict_get_set_other. discriminate.
Qed.

Lemma parse_genre_quality_param st :
  dict_get "quality" (search_params (parse_genre st)) =
  dict_get "quality" (search_params st).
Proof.
  unfold parse_genre. destruct (re_search _ _); [|reflexivity].
  simpl. apply dict_get_set_other. discriminate.
Qed.

Lemma parse_page_quality_param st :
  dict_get "quality" (search_params (parse_page st)) =
  dict_get "quality" (search_params st).
Proof.
  unfold parse_page. simpl.
  destruct (strip (re_sub search_rstring (what st))); [reflexivity|].
  apply dict_get_set_other. discriminate.
Qed.

Lemma parse_page_genre_param st :
  dict_get "genre" (search_params (parse_page st)) =
  dict_get "genre" (search_params st).
Proof.
  unfold parse_page. simpl.
  destruct (strip (re_sub search_rstring (what st))); [reflexivity|].
  apply dict_get_set_other. discriminate.
Qed.

Lemma parse_codec_found st g q :
  re_search codec_rstring (what st) = Some g ->
  dict_get "quality" (search_params st) = Some (PvStr q) ->
  search_codec (parse_codec st) = Some ("x" ++ g)
  /\ what (parse_codec st)
     = strip (re_sub (pat_regex codec_rstring) (what st))
  /\ dict_get "quality" (search_params (parse_codec st))
     = Some (PvStr (q ++ "." ++ "x" ++ g)).
Proof.
  intros Hs Hq. unfold parse_codec. rewrite Hs. cbn [search_codec what
  search_params]. rewrite Hq. unfold append_codec. rewrite Hq.
  rewrite dict_get_set_same. auto.
Qed.

Lemma parse_codec_none st :
  re_search codec_rstring (what st) = None -> parse_codec st = st.
Proof. unfold parse_codec. intros ->. reflexivity. Qed.

Lemma parse_unfold w :
  parse w = parse_page (parse_genre (parse_rating (after_codec w))).
Proof. reflexivity. Qed.

Lemma after_codec_resolution w r :
  re_search quality_rstring w = Some r ->
  search_resolution (after_codec w) = Some r.
Proof.
  intros H. unfold after_codec. rewrite parse_codec_resolution.
  rewrite (parse_quality_found (parse_start w) r H). reflexivity.
Qed.

Lemma parse_resolution w :
  search_resolution (parse w) = search_resolution (after_codec w).
Proof.
  rewrite parse_unfold. cbn [parse_page search_resolution].
  rewrite parse_genre_resolution, parse_rating_resolution. reflexivity.
Qed.

Lemma parse_codec_value w :
  search_codec (parse w) = search_codec (after_codec w).
Proof.
  rewrite parse_unfold. cbn [parse_page search_codec].
  rewrite parse_genre_codec, parse_rating_codec. reflexivity.
Qed.

Lemma parse_quality_param w :
  dict_get "quality" (search_params (parse w)) =
  dict_get "quality" (search_params (after_codec w)).
Proof.
  rewrite parse_unfold, parse_page_quality_param,
    parse_genre_quality_param, parse_rating_quality_param. reflexivity.
Qed.

(** What the first two steps leave behind when a resolution was found:
    either a codec was found too and ["quality"] holds the compound
    string, or it holds the bare resolution. *)
Lemma after_codec_cases w r :
  re_search quality_rstring w = Some r ->
  (exists g,
      re_search codec_rstring
                (strip (re_sub (pat_regex quality_rstring) w)) = Some g
      /\ search_codec (after_codec w) = Some ("x" ++ g)
      /\ dict_get "quality" (search_params (after_codec w))
         = Some (PvStr (r ++ "." ++ "x" ++ g)))
  \/ (re_search codec_rstring
                (strip (re_sub (pat_regex quality_rstring) w)) = None
      /\ search_codec (after_codec w) = None
      /\ dict_get "quality" (search_params (after_codec w))
         = Some (PvStr r)).
Proof.
  intros H. unfold after_codec.
  rewrite (parse_quality_found (parse_start w) r H). cbn [what parse_start].
  set (st := {| what := strip (re_sub (pat_regex quality_rstring) w);
                search_params := _ |}).
  destruct (re_search codec_rstring
              (strip (re_sub (pat_regex quality_rstring) w))) as [g|] eqn:E.
  - left. exists g. split; [reflexivity|].
    destruct (parse_codec_found st g r E) as (Hc & _ & Hq);
      [reflexivity | auto].
  - right. split; [reflexivity|].
    rewrite (parse_codec_none st E). split; reflexivity.
Qed.

(** ** Claims about the tag extraction *)

(** C6, counterexample: the query ["1080p x26480p"] contains the
    resolution tag [1080p] and the codec tag [x264], yet the value left
    under ["quality"] is not a compound [<res>.<codec>] string: removing
    every resolution occurrence also removes [480p], which destroys the
    codec tag before the codec step runs. *)
Lemma compound_quality_counterexample :
  re_search quality_rstring "1080p x26480p" = Some "1080p"
  /\ re_search codec_rstring "1080p x26480p" = Some "264"
  /\ dict_get "quality" (search_params (parse "1080p x26480p"))
     = Some (PvStr "1080p")
  /\ ~ (exists res codec,
           dict_get "quality" (search_params (parse "1080p x26480p"))
           = Some (PvStr (res ++ "." ++ codec))
           /\ In res resolutions
           /\ (codec = "x264" \/ codec = "x265")).
Proof.
  repeat split; try reflexivity.
  intros (res & codec & H & Hres & Hcodec).
  vm_compute in H. simpl in Hres.
  intuition (subst; discriminate).
Qed.

(** C6 (amended): whenever the resolution pattern matches the query and
    the codec pattern matches the text left after every resolution
    occurrence has been removed (in whichever order the two tags were
    written), the value stored under ["quality"], which is what gets sent
    upstream, is the compound string [<res>.<codec>]: [<res>] is the
    first resolution found, one of the supported values, and [<codec>] is
    [x264] or [x265] whatever letter the tag was written with. *)
Theorem compound_quality w r c :
  re_search quality_rstring w = Some r ->
  re_search codec_rstring
            (strip (re_sub (pat_regex quality_rstring) w)) = Some c ->
  dict_get "quality" (search_params (parse w))
  = Some (PvStr (r ++ "." ++ "x" ++ c))
  /\ search_codec (parse w) = Some ("x" ++ c)
  /\ In r resolutions
  /\ (c = "264" \/ c = "265").
Proof.
  intros Hr Hc.
  rewrite parse_quality_param, parse_codec_value.
  destruct (after_codec_cases w r Hr) as [(g & E & Hcodec & Hq)|(E & _)];
    [|congruence].
  rewrite Hc in E. injection E as <-.
  repeat split; auto.
  - apply quality_group. apply (re_search_group Quality w r Hr).
  - apply codec_group. apply (re_search_group Codec _ c Hc).
Qed.

Lemma compound_quality_witness :
  re_search quality_rstring "dune quality=720p x265" = Some "720p"
  /\ re_search codec_rstring
       (strip (re_sub (pat_regex quality_rstring) "dune quality=720p x265"))
     = Some "265"
  /\ dict_get "quality" (search_params (parse "dune quality=720p x265"))
     = Some (PvStr "720p.x265")
  /\ search_codec (parse "dune quality=720p x265") = Some "x265"
  /\ In "720p" resolutions
  /\ ("265" = "264" \/ "265" = "265").
Proof.
  split; [reflexivity|]. split; [reflexivity|].
  apply (compound_quality "dune quality=720p x265" "720p" "265");
    reflexivity.
Defined.

Example parse_dune :
  what (parse "dune quality=720p x265") = "dune"
  /\ search_params (parse "dune quality=720p x265")
     = [("quality", PvStr "720p.x265"); ("query_term", PvStr "dune")]
  /\ search_resolution (parse "dune quality=720p x265") = Some "720p"
  /\ search_codec (parse "dune quality=720p x265") = Some "x265".
Proof. repeat split. Qed.

Example parse_dune_h265_first :
  what (parse "dune .h265 720p") = "dune"
  /\ search_params (parse "dune .h265 720p")
     = [("quality", PvStr "720p.x265"); ("query_term", PvStr "dune")].
Proof. repeat split. Qed.

Lemma app_longer (a b : str) : b <> [] -> a ++ b <> a.
Proof.
  intros Hb E. apply (f_equal (@length ascii)) in E.
  rewrite length_app in E. destruct b; [congruence | simpl in E; lia].
Qed.

(** When a resolution tag is found, [search_resolution] is the bare
    captured resolution, whether or not a codec was found; the codec
    suffix goes only into the ["quality"] query parameter.  A torrent
    whose quality is the bare resolution passes the resolution test, and
    one whose quality is the compound string is skipped. *)
Lemma parse_resolution_is_bare w r :
  re_search quality_rstring w = Some r ->
  search_resolution (parse w) = Some r
  /\ (forall c, search_codec (parse w) = Some c ->
        dict_get "quality" (search_params (parse w))
        = Some (PvStr (r ++ "." ++ c)))
  /\ (search_codec (parse w) = None ->
        dict_get "quality" (search_params (parse w)) = Some (PvStr r))
  /\ (forall t, yts_torrent.quality t = PStr r ->
        is_set (search_resolution (parse w))
        && differs (yts_torrent.quality t) (search_resolution (parse w))
        = false)
  /\ (forall c t, search_codec (parse w) = Some c ->
        yts_torrent.quality t = PStr (r ++ "." ++ c) ->
        skipped (search_codec (parse w)) (search_resolution (parse w)) t
        = true).
Proof.
  intros Hr.
  assert (Hres : search_resolution (parse w) = Some r).
  { rewrite parse_resolution. apply after_codec_resolution, Hr. }
  assert (Hne : r <> []).
  { apply (tag_group_nonempty Quality), (re_search_group Quality w r Hr). }
  rewrite Hres, parse_quality_param, parse_codec_value.
  destruct (after_codec_cases w r Hr)
    as [(g & _ & Hc & Hq)|(_ & Hc & Hq)]; rewrite Hc, Hq.
  - split; [reflexivity|]. split; [intros c [= <-]; reflexivity|].
    split; [discriminate|]. split.
    + intros t ->. simpl. rewrite str_eqb_refl. apply andb_false_r.
    + intros c t [= <-] Hq'. unfold skipped. rewrite Hq'.
      apply orb_true_iff. right. simpl.
      apply andb_true_iff. split; apply negb_true_iff, str_eqb_neq; auto.
      apply app_longer. discriminate.
  - split; [reflexivity|]. split; [discriminate|].
    split; [reflexivity|]. split.
    + intros t ->. simpl. rewrite str_eqb_refl. apply andb_false_r.
    + discriminate.
Qed.

(** C1, counterexample: ["foo rating=7 genre=3D"] contains a rating tag
    and a genre tag, but the resolution step runs first and takes [3D]
    out of the genre tag: no genre is recorded and [genre=] stays in the
    free text. *)
Lemma rating_and_genre_counterexample :
  re_search rating_rstring "foo rating=7 genre=3D" = Some "7"
  /\ re_search genre_rstring "foo rating=7 genre=3D" = Some "3D"
  /\ ~ (genre (parse "foo rating=7 genre=3D") = Some "3D"
        /\ what (parse "foo rating=7 genre=3D") = "foo")
  /\ genre (parse "foo rating=7 genre=3D") = None
  /\ dict_get "genre" (search_params (parse "foo rating=7 genre=3D")) = None
  /\ what (parse "foo rating=7 genre=3D") = "foo  genre=".
Proof.
  repeat split; try reflexivity.
  intros [H _]. vm_compute in H. discriminate.
Qed.

Example parse_foo :
  parse "foo rating=7 genre=horror"
  = {| what := "foo";
       search_params :=
         [("minimum_rating", PvSet ["7"]); ("genre", PvStr "horror");
          ("query_term", PvStr "foo")];
       search_resolution := None;
       search_codec := None;
       min_rating := Some "7";
       genre := Some "horror" |}.
Proof. reflexivity. Qed.

(** ** Scanning: [re.search], [re.sub] and [re.finditer] agree *)

Lemma re_search_finditer p s pos :
  re_search p s = option_map occ_group (hd_error (finditer_from p 0 pos s)).
Proof.
  revert pos; induction s as [|c s IH]; intros pos; simpl.
  - destruct (pmatch p []) as [[g rest]|]; reflexivity.
  - destruct (pmatch p (c :: s)) as [[g rest]|]; [reflexivity | apply IH].
Qed.

Lemma finditer_from_start p s : forall skip pos o,
  In o (finditer_from p skip pos s) -> (pos + skip <= occ_start o)%nat.
Proof.
  induction s as [|c s IH]; intros skip pos o H.
  - destruct skip as [|k]; simpl in H; [|contradiction].
    destruct (pmatch p []) as [[g rest]|]; [|contradiction].
    destruct H as [<- | []]. simpl. lia.
  - destruct skip as [|k]; simpl in H.
    + destruct (pmatch p (c :: s)) as [[g rest]|].
      * destruct H as [<- | H]; [simpl; lia|].
        apply IH in H. lia.
      * apply IH in H. lia.
    + apply IH in H. lia.
Qed.

Lemma not_in_later_spans pos (l : list occurrence) :
  (forall o, In o l -> (pos < occ_start o)%nat) ->
  existsb (in_span pos) l = false.
Proof.
  intros H. induction l as [|o l IH]; simpl; [reflexivity|].
  rewrite IH by (intros; apply H; right; assumption).
  unfold in_span. specialize (H o (or_introl eq_refl)).
  destruct (Nat.leb_spec (occ_start o) pos); [lia | reflexivity].
Qed.

(** [spans0] stands for the matches found before position [pos]; among the
    positions still ahead it covers exactly the next [skip] ones. *)
Lemma sub_from_delete p s : forall skip pos spans0,
  (forall i, (pos <= i)%nat ->
             existsb (in_span i) spans0 = (i <? pos + skip)%nat) ->
  sub_from (pat_regex p) skip s
  = delete_at (spans0 ++ finditer_from p skip pos s) pos s.
Proof.
  induction s as [|c s IH]; intros skip pos spans0 Hcover;
    [reflexivity|].
  assert (Hhere := Hcover pos (Nat.le_refl pos)).
  destruct skip as [|k].
  - cbn [sub_from finditer_from delete_at]. rewrite match_len_pmatch.
    replace (pos <? pos + 0)%nat with false in Hhere
      by (symmetry; apply Nat.ltb_ge; lia).
    destruct (pmatch p (c :: s)) as [[g rest]|] eqn:E; cbn [option_map snd].
    + set (n := (length (c :: s) - length rest)%nat).
      set (o := {| occ_start := pos; occ_len := n; occ_group := g |}).
      assert (Hlater : existsb (in_span pos)
                         (finditer_from p (pred n) (S pos) s) = false).
      { apply not_in_later_spans. intros o' Ho'.
        apply finditer_from_start in Ho'. lia. }
      rewrite existsb_app. cbn [existsb]. rewrite Hhere, Hlater.
      assert (Hcover' : forall i, (S pos <= i)%nat ->
                existsb (in_span i) (spans0 ++ [o])
                = (i <? S pos + pred n)%nat).
      { intros i Hi. rewrite existsb_app, Hcover by lia. cbn [existsb].
        unfold in_span, o; cbn [occ_start occ_len].
        destruct (Nat.ltb_spec i (pos + 0)); [lia|].
        destruct (Nat.leb_spec pos i); [|lia].
        destruct (Nat.ltb_spec i (pos + n));
          destruct (Nat.ltb_spec i (S pos + pred n)); simpl; auto; lia. }
      specialize (IH (pred n) (S pos) (spans0 ++ [o]) Hcover').
      rewrite <- app_assoc in IH. cbn [app] in IH.
      unfold in_span at 1. cbn [occ_start occ_len o].
      rewrite Nat.leb_refl.
      destruct n as [|k]; cbn [pred] in *.
      * replace (pos <? pos + 0)%nat with false
          by (symmetry; apply Nat.ltb_ge; lia).
        simpl. f_equal. exact IH.
      * replace (pos <? pos + S k)%nat with true
          by (symmetry; apply Nat.ltb_lt; lia).
        simpl. exact IH.
    + rewrite existsb_app, Hhere.
      rewrite not_in_later_spans
        by (intros o' Ho'; apply finditer_from_start in Ho'; lia).
      simpl. f_equal. apply IH.
      intros i Hi. rewrite Hcover by lia.
      destruct (Nat.ltb_spec i (pos + 0));
        destruct (Nat.ltb_spec i (S pos + 0)); auto; lia.
  - cbn [sub_from finditer_from delete_at].
    replace (pos <? pos + S k)%nat with true in Hhere
      by (symmetry; apply Nat.ltb_lt; lia).
    rewrite existsb_app, Hhere. simpl. apply IH.
    intros i Hi. rewrite Hcover by lia.
    destruct (Nat.ltb_spec i (pos + S k));
      destruct (Nat.ltb_spec i (S pos + k)); auto; lia.
Qed.

Lemma re_sub_finditer p s :
  re_sub (pat_regex p) s = delete_spans (finditer p s) s.
Proof.
  unfold re_sub, delete_spans, finditer.
  apply (sub_from_delete p s 0 0 []).
  intros i _. simpl. symmetry. apply Nat.ltb_ge. lia.
Qed.

(** ** Every step only removes characters *)

#[local] Hint Constructors subseq : core.

Lemma subseq_refl s : subseq s s.
Proof. induction s; auto. Qed.

Lemma subseq_trans a b c : subseq a b -> subseq b c -> subseq a c.
Proof.
  intros Hab Hbc. revert a Hab.
  induction Hbc as [|x b c _ IH|x b c _ IH]; intros a Hab; auto.
  inversion Hab; subst; auto.
Qed.

Lemma subseq_app_l pre s : subseq s (pre ++ s).
Proof. induction pre; simpl; auto using subseq_refl. Qed.

Lemma subseq_app_r s post : subseq s (s ++ post).
Proof.
  induction s as [|c s IH]; simpl; auto.
  induction post; auto.
Qed.

Lemma lstrip_suffix s : exists pre, s = pre ++ lstrip s.
Proof.
  induction s as [|c s [pre IH]]; simpl.
  - exists []. reflexivity.
  - destruct (is_space c).
    + exists (c :: pre). simpl. congruence.
    + exists []. reflexivity.
Qed.

Lemma rstrip_prefix s : exists post, s = rstrip s ++ post.
Proof.
  unfold rstrip. destruct (lstrip_suffix (rev s)) as [pre E].
  exists (rev pre). rewrite <- rev_app_distr, <- E. symmetry.
  apply rev_involutive.
Qed.

Lemma subseq_strip s : subseq (strip s) s.
Proof.
  unfold strip. destruct (rstrip_prefix (lstrip s)) as [post E].
  destruct (lstrip_suffix s) as [pre E'].
  apply subseq_trans with (lstrip s).
  - rewrite E at 2. apply subseq_app_r.
  - rewrite E' at 2. apply subseq_app_l.
Qed.

Lemma subseq_sub_from r s : forall skip, subseq (sub_from r skip s) s.
Proof.
  induction s as [|c s IH]; intros skip; simpl; auto.
  destruct skip; auto.
  destruct (match_len r (c :: s)) as [[|k]|]; auto.
Qed.

Lemma subseq_removed r s : subseq (strip (re_sub r s)) s.
Proof.
  apply subseq_trans with (re_sub r s);
    [apply subseq_strip | apply subseq_sub_from].
Qed.

Lemma subseq_parse_codec st : subseq (what (parse_codec st)) (what st).
Proof.
  unfold parse_codec. destruct (re_search _ _);
    [apply subseq_removed | apply subseq_refl].
Qed.

Lemma subseq_parse_rating st : subseq (what (parse_rating st)) (what st).
Proof.
  unfold parse_rating. destruct (re_search _ _);
    [apply subseq_removed | apply subseq_refl].
Qed.

Lemma subseq_parse_genre st : subseq (what (parse_genre st)) (what st).
Proof.
  unfold parse_genre. destruct (re_search _ _);
    [apply subseq_removed | apply subseq_refl].
Qed.

Lemma subseq_parse_page st : subseq (what (parse_page st)) (what st).
Proof. apply subseq_removed. Qed.

Lemma subseq_steps_from t st :
  subseq (what (steps_from t st)) (what (tag_step t st)).
Proof.
  destruct t; simpl;
    repeat first
      [ apply subseq_refl
      | eapply subseq_trans; [apply subseq_parse_page|]
      | eapply subseq_trans; [apply subseq_parse_genre|]
      | eapply subseq_trans; [apply subseq_parse_rating|]
      | eapply subseq_trans; [apply subseq_parse_codec|] ].
Qed.

(** A step that finds its tag. *)
Lemma tag_step_found t st g :
  re_search (tag_pattern t) (what st) = Some g ->
  tag_value t (tag_step t st) = Some (tag_canon t g)
  /\ what (tag_step t st)
     = strip (re_sub (pat_regex (tag_pattern t)) (what st)).
Proof.
  destruct t; simpl; intros H.
  - unfold parse_quality. rewrite H. auto.
  - unfold parse_codec. rewrite H. auto.
  - unfold parse_rating. rewrite H. auto.
  - unfold parse_genre. rewrite H. auto.
Qed.

(** The later steps do not touch the variable bound by an earlier one. *)
Lemma tag_value_steps_from t st :
  tag_value t (steps_from t st) = tag_value t (tag_step t st).
Proof.
  destruct t; simpl.
  - rewrite parse_genre_resolution, parse_rating_resolution,
      parse_codec_resolution. reflexivity.
  - rewrite parse_genre_codec, parse_rating_codec. reflexivity.
  - rewrite parse_genre_min_rating. reflexivity.
  - reflexivity.
Qed.

Lemma pmatch_occurrence p s g rest :
  pmatch p s = Some (g, rest) ->
  exists h, s = h ++ g ++ rest
            /\ (length h + length g)%nat = (length s - length rest)%nat
            /\ matches (pat_head p) h /\ matches (pat_group p) g.
Proof.
  intros H. destruct (pmatch_sound _ _ _ _ H) as (h & Hs & Mh & Mg).
  exists h. repeat split; auto.
  rewrite Hs at 1. rewrite !length_app. lia.
Qed.

Lemma finditer_from_occurs p s : forall skip pos o,
  In o (finditer_from p skip pos s) ->
  exists pre h post,
    s = pre ++ h ++ occ_group o ++ post
    /\ (pos + length pre)%nat = occ_start o
    /\ (length h + length (occ_group o))%nat = occ_len o
    /\ matches (pat_head p) h
    /\ matches (pat_group p) (occ_group o).
Proof.
  assert (Hshift : forall c s' pos o,
    (exists pre h post,
        s' = pre ++ h ++ occ_group o ++ post
        /\ (S pos + length pre)%nat = occ_start o
        /\ (length h + length (occ_group o))%nat = occ_len o
        /\ matches (pat_head p) h
        /\ matches (pat_group p) (occ_group o)) ->
    exists pre h post,
        c :: s' = pre ++ h ++ occ_group o ++ post
        /\ (pos + length pre)%nat = occ_start o
        /\ (length h + length (occ_group o))%nat = occ_len o
        /\ matches (pat_head p) h
        /\ matches (pat_group p) (occ_group o)).
  { intros c s' pos o (pre & h & post & -> & Hpos & Hlen & Mh & Mg).
    exists (c :: pre), h, post. simpl. repeat split; auto. lia. }
  assert (Hhead : forall s pos g rest,
    pmatch p s = Some (g, rest) ->
    let o := {| occ_start := pos;
                occ_len := (length s - length rest)%nat;
                occ_group := g |} in
    exists pre h post,
        s = pre ++ h ++ occ_group o ++ post
        /\ (pos + length pre)%nat = occ_start o
        /\ (length h + length (occ_group o))%nat = occ_len o
        /\ matches (pat_head p) h
        /\ matches (pat_group p) (occ_group o)).
  { intros s0 pos g rest E o.
    destruct (pmatch_occurrence _ _ _ _ E) as (h & Hs & Hlen & Mh & Mg).
    exists [], h, rest. simpl. repeat split; auto. }
  induction s as [|c s IH]; intros skip pos o H.
  - destruct skip as [|k]; simpl in H; [|contradiction].
    destruct (pmatch p []) as [[g rest]|] eqn:E; [|contradiction].
    destruct H as [<- | []]. apply (Hhead [] pos g rest E).
  - destruct skip as [|k]; simpl in H.
    + destruct (pmatch p (c :: s)) as [[g rest]|] eqn:E.
      * destruct H as [<- | H].
        -- apply (Hhead (c :: s) pos g rest E).
        -- apply Hshift, (IH _ _ _ H).
      * apply Hshift, (IH _ _ _ H).
    + apply Hshift, (IH _ _ _ H).
Qed.

Lemma finditer_occurs p s o : In o (finditer p s) -> occurs p s o.
Proof.
  intros H. apply finditer_from_occurs in H.
  destruct H as (pre & h & post & Hs & Hpos & Hrest).
  exists pre, h, post. simpl in Hpos. auto.
Qed.

Lemma finditer_from_disjoint p s : forall pos o1 o2 os,
  finditer_from p 0 pos s = o1 :: o2 :: os ->
  (occ_start o1 + occ_len o1 <= occ_start o2)%nat.
Proof.
  induction s as [|c s IH]; intros pos o1 o2 os H;
    cbn [finditer_from] in H.
  - destruct (pmatch p []) as [[g rest]|]; discriminate.
  - destruct (pmatch p (c :: s)) as [[g rest]|]; [|apply (IH _ _ _ _ H)].
    injection H as <- H. cbn [occ_start occ_len].
    assert (Hin : In o2 (o2 :: os)) by (left; reflexivity).
    rewrite <- H in Hin. apply finditer_from_start in Hin. lia.
Qed.

Lemma parse_steps_from w : parse w = steps_from Quality (parse_start w).
Proof. reflexivity. Qed.

(** ** Claim about repeated tags *)

(** C10, counterexample: ["x26480p x265"] contains two codec tags,
    [x264] and [x265].  The resolution step runs first and removes [480p],
    which breaks the first codec tag: the codec is taken from the second
    occurrence, and [x26], part of the first one, stays in the free
    text. *)
Lemma first_occurrence_counterexample :
  finditer codec_rstring "x26480p x265"
  = [ {| occ_start := 0; occ_len := 4; occ_group := "264" |};
      {| occ_start := 8; occ_len := 4; occ_group := "265" |} ]
  /\ search_codec (parse "x26480p x265") = Some "x265"
  /\ search_codec (parse "x26480p x265") <> Some "x264"
  /\ what (parse "x26480p x265") = "x26"
  /\ ~ subseq (what (parse "x26480p x265"))
              (delete_spans (finditer codec_rstring "x26480p x265")
                            "x26480p x265").
Proof.
  repeat split; try reflexivity; try discriminate.
  vm_compute. intros H.
  repeat match goal with
         | H : subseq _ _ |- _ => inversion H; clear H; subst
         end.
Qed.

(** C10 (amended): for each extraction step and every text reaching that
    step (for the resolution step: the raw query) in which the step's
    pattern occurs more than once, the step's variable is taken from the
    first occurrence, the text handed to the next step is the input with
    the characters of every occurrence deleted, then trimmed, and the
    final free text is made only of characters outside all the
    occurrences.  The occurrences are the successive non-overlapping
    matches found by a left-to-right scan. *)
Theorem every_occurrence_removed t st o1 o2 os :
  finditer (tag_pattern t) (what st) = o1 :: o2 :: os ->
  tag_value t (steps_from t st) = Some (tag_canon t (occ_group o1))
  /\ what (tag_step t st)
     = strip (delete_spans (o1 :: o2 :: os) (what st))
  /\ subseq (what (steps_from t st))
            (delete_spans (o1 :: o2 :: os) (what st))
  /\ Forall (occurs (tag_pattern t) (what st)) (o1 :: o2 :: os)
  /\ (occ_start o1 + occ_len o1 <= occ_start o2)%nat.
Proof.
  intros Hocc.
  assert (Hfirst : re_search (tag_pattern t) (what st)
                   = Some (occ_group o1)).
  { rewrite (re_search_finditer _ _ 0). fold (finditer (tag_pattern t)
    (what st)). rewrite Hocc. reflexivity. }
  destruct (tag_step_found t st _ Hfirst) as (Hval & Hwhat).
  rewrite re_sub_finditer, Hocc in Hwhat.
  repeat split.
  - rewrite tag_value_steps_from. exact Hval.
  - exact Hwhat.
  - apply subseq_trans with (what (tag_step t st));
      [apply subseq_steps_from|].
    rewrite Hwhat. apply subseq_strip.
  - apply Forall_forall. intros o Ho. apply finditer_occurs.
    rewrite Hocc. exact Ho.
  - apply (finditer_from_disjoint _ _ _ _ _ _ Hocc).
Qed.

Lemma every_occurrence_removed_witness :
  finditer (tag_pattern Quality) (what (parse_start "1080p 720p"))
  = [ {| occ_start := 0; occ_len := 5; occ_group := "1080p" |};
      {| occ_start := 6; occ_len := 4; occ_group := "720p" |} ]
  /\ search_resolution (parse "1080p 720p") = Some "1080p"
  /\ what (parse_quality (parse_start "1080p 720p")) = ""
  /\ subseq (what (parse "1080p 720p")) " ".
Proof.
  split; [reflexivity|].
  destruct (every_occurrence_removed Quality (parse_start "1080p 720p")
              {| occ_start := 0; occ_len := 5; occ_group := "1080p" |}
              {| occ_start := 6; occ_len := 4; occ_group := "720p" |} [])
    as (H1 & H2 & H3 & _); [reflexivity|].
  split; [exact H1|]. split; [exact H2 | exact H3].
Defined.

Example parse_two_resolutions :
  what (parse "ubuntu 1080p quality=720p") = "ubuntu"
  /\ search_params (parse "ubuntu 1080p quality=720p")
     = [("quality", PvStr "1080p"); ("query_term", PvStr "ubuntu")].
Proof. split; reflexivity. Qed.

(** ** Decoding a response *)

Lemma res_bind_raise {A B} (m : res A) (k : A -> res B) e :
  m = Raise e -> res_bind m k = Raise e.
Proof. intros ->. reflexivity. Qed.

Lemma bind_kwargs_error required optional kw e :
  bind_kwargs required optional kw = Raise e -> e = TypeError.
Proof.
  unfold bind_kwargs. destruct (_ && _); [discriminate | congruence].
Qed.

Lemma bind_kwargs_unexpected required optional kw k :
  In k (keys kw) -> mem k (required ++ optional) = false ->
  bind_kwargs required optional kw = Raise TypeError.
Proof.
  intros Hin Hk. unfold bind_kwargs.
  destruct (forallb (fun k0 => mem k0 (required ++ optional)) (keys kw))
    eqn:E; [|reflexivity].
  rewrite forallb_forall in E. rewrite (E k Hin) in Hk. discriminate.
Qed.

Lemma kwargs_error v e : kwargs v = Raise e -> e = TypeError.
Proof. destruct v; simpl; congruence. Qed.

Lemma py_iter_error v e : py_iter v = Raise e -> e = TypeError.
Proof. destruct v; simpl; congruence. Qed.

Lemma map_res_error {A B} (f : A -> res B) E l e :
  (forall x e', f x = Raise e' -> e' = E) ->
  map_res f l = Raise e -> e = E.
Proof.
  intros Hf. induction l as [|x l IH]; simpl; [discriminate|].
  destruct (f x) eqn:Ex; simpl.
  - destruct (map_res f l); simpl; [discriminate|].
    intros [= <-]. apply IH. reflexivity.
  - intros [= <-]. apply (Hf x). exact Ex.
Qed.

Lemma map_res_raise {A B} (f : A -> res B) E l x :
  (forall y e, f y = Raise e -> e = E) ->
  In x l -> f x = Raise E -> map_res f l = Raise E.
Proof.
  intros Hf Hin Hx. induction l as [|y l IH]; [contradiction|].
  simpl. destruct (f y) eqn:Ey; simpl.
  - destruct Hin as [-> | Hin]; [congruence|].
    rewrite (IH Hin). reflexivity.
  - f_equal. apply (Hf y). exact Ey.
Qed.

Lemma torrent_item_error v e :
  (let? kw := kwargs v in yts_torrent.new kw) = Raise e -> e = TypeError.
Proof.
  destruct (kwargs v) as [kw|e'] eqn:E; simpl.
  - unfold yts_torrent.new.
    destruct (bind_kwargs yts_torrent.fields [] kw) eqn:Eb; simpl;
      [discriminate|].
    intros [= <-]. apply (bind_kwargs_error _ _ _ _ Eb).
  - intros [= <-]. apply (kwargs_error _ _ E).
Qed.

Lemma movie_post_init_error v e :
  yts_movie.post_init v = Raise e -> e = TypeError.
Proof.
  unfold yts_movie.post_init. destruct (py_iter v) eqn:E; simpl.
  - apply map_res_error. apply torrent_item_error.
  - intros [= <-]. apply (py_iter_error _ _ E).
Qed.

Lemma movie_item_error v e :
  (let? kw := kwargs v in yts_movie.new kw) = Raise e -> e = TypeError.
Proof.
  destruct (kwargs v) as [kw|e'] eqn:E; simpl.
  - unfold yts_movie.new.
    destruct (bind_kwargs yts_movie.fields [] kw) eqn:Eb; simpl.
    + destruct (yts_movie.post_init (arg kw "torrents")) eqn:Ep; simpl;
        [discriminate|].
      intros [= <-]. apply (movie_post_init_error _ _ Ep).
    + intros [= <-]. apply (bind_kwargs_error _ _ _ _ Eb).
  - intros [= <-]. apply (kwargs_error _ _ E).
Qed.

(** A torrent object with an unknown field makes its movie fail. *)
Lemma movie_unknown_torrent_field mkw ts tkw k :
  arg mkw "torrents" = PList ts -> In (PDict tkw) ts ->
  In k (keys tkw) -> mem k yts_torrent.fields = false ->
  yts_movie.new mkw = Raise TypeError.
Proof.
  intros Hts Hin Hk Hunknown. unfold yts_movie.new.
  destruct (bind_kwargs yts_movie.fields [] mkw) eqn:Eb; simpl.
  - rewrite Hts. unfold yts_movie.post_init. simpl.
    rewrite (map_res_raise _ TypeError ts (PDict tkw)); auto.
    + apply torrent_item_error.
    + simpl. unfold yts_torrent.new.
      rewrite (bind_kwargs_unexpected _ _ _ k Hk); auto.
  - f_equal. apply (bind_kwargs_error _ _ _ _ Eb).
Qed.

(** A movie object that fails to construct makes [yts_data] fail. *)
Lemma data_bad_movie dkw ms mkw :
  arg dkw "movies" = PList ms -> In (PDict mkw) ms ->
  yts_movie.new mkw = Raise TypeError ->
  yts_data.new dkw = Raise TypeError.
Proof.
  intros Hms Hin Hbad. unfold yts_data.new.
  destruct (bind_kwargs yts_data.required yts_data.optional dkw) eqn:Eb;
    simpl.
  - rewrite Hms. unfold yts_data.post_init.
    assert (Htruthy : py_truthy (PList ms) = true)
      by (destruct ms; [contradiction | reflexivity]).
    rewrite Htruthy. simpl.
    rewrite (map_res_raise _ TypeError ms (PDict mkw)); auto.
    apply movie_item_error.
  - f_equal. apply (bind_kwargs_error _ _ _ _ Eb).
Qed.

Lemma dict_get_filter {V} fs k (d : list (str * V)) :
  mem k fs = true ->
  dict_get k (filter (fun kv => mem (fst kv) fs) d) = dict_get k d.
Proof.
  intros Hk. induction d as [|[k' v] d IH]; simpl; [reflexivity|].
  destruct (mem k' fs) eqn:E; simpl.
  - destruct (str_eqb k' k); auto.
  - destruct (str_eqb k' k) eqn:E'; auto.
    apply str_eqb_eq in E'. congruence.
Qed.

(** A [data] object that fails to construct makes the response fail. *)
Lemma response_bad_data items dkw :
  dict_get "data" items = Some (PDict dkw) ->
  yts_data.new dkw = Raise TypeError ->
  convert_response (PDict items) = Raise TypeError.
Proof.
  intros Hdata Hbad. unfold convert_response, yts_response.new.
  destruct (bind_kwargs yts_response.fields [] _) eqn:Eb; cbn [res_bind].
  - unfold arg. rewrite dict_get_filter by reflexivity.
    rewrite Hdata. cbn [kwargs res_bind]. rewrite Hbad. reflexivity.
  - f_equal. apply (bind_kwargs_error _ _ _ _ Eb).
Qed.

(** C3, counterexample: a well-shaped payload decodes, and the same
    payload with one extra field inside [data], inside a movie or inside
    a torrent raises [TypeError]. *)
Lemma nested_extra_field_counterexample :
  let t := Script.torrent "1080p" "x264" in
  let payload extra_data m :=
    Script.response "ok" "Query was successful"
      (Script.data 1 20 1 (("movies", PList [m]) :: extra_data)) in
  (exists r, convert_response (payload [] (Script.movie [t])) = Ok r)
  /\ convert_response (payload [("extra", PInt 1)] (Script.movie [t]))
     = Raise TypeError
  /\ convert_response
       (payload [] (Script.with_field "extra" (PInt 1) (Script.movie [t])))
     = Raise TypeError
  /\ convert_response
       (payload [] (Script.movie [Script.with_field "extra" (PInt 1) t]))
     = Raise TypeError.
Proof.
  repeat split; try reflexivity. eexists. reflexivity.
Qed.

(** C3 (amended): decoding ignores unrecognized fields at the top level
    of the payload only.  An unrecognized field inside [data], inside a
    movie object or inside a torrent object makes decoding raise
    [TypeError]. *)
Theorem unknown_fields :
  (forall a b k v,
      mem k yts_response.fields = false ->
      convert_response (PDict (a ++ (k, v) :: b))
      = convert_response (PDict (a ++ b)))
  /\ (forall items dkw k,
         dict_get "data" items = Some (PDict dkw) ->
         In k (keys dkw) ->
         mem k (yts_data.required ++ yts_data.optional) = false ->
         convert_response (PDict items) = Raise TypeError)
  /\ (forall items dkw ms mkw k,
         dict_get "data" items = Some (PDict dkw) ->
         arg dkw "movies" = PList ms -> In (PDict mkw) ms ->
         In k (keys mkw) -> mem k yts_movie.fields = false ->
         convert_response (PDict items) = Raise TypeError)
  /\ (forall items dkw ms mkw ts tkw k,
         dict_get "data" items = Some (PDict dkw) ->
         arg dkw "movies" = PList ms -> In (PDict mkw) ms ->
         arg mkw "torrents" = PList ts -> In (PDict tkw) ts ->
         In k (keys tkw) -> mem k yts_torrent.fields = false ->
         convert_response (PDict items) = Raise TypeError).
Proof.
  repeat split.
  - intros a b k v Hk. unfold convert_response.
    rewrite !filter_app. cbn [filter fst]. rewrite Hk. reflexivity.
  - intros items dkw k Hdata Hin Hk.
    apply (response_bad_data items dkw Hdata).
    unfold yts_data.new.
    rewrite (bind_kwargs_unexpected _ _ _ k Hin Hk). reflexivity.
  - intros items dkw ms mkw k Hdata Hms Hin Hk Hunknown.
    apply (response_bad_data items dkw Hdata).
    apply (data_bad_movie dkw ms mkw Hms Hin).
    unfold yts_movie.new.
    rewrite (bind_kwargs_unexpected _ _ _ k Hk); auto.
  - intros items dkw ms mkw ts tkw k Hdata Hms Hin Hts Hint Hk Hunknown.
    apply (response_bad_data items dkw Hdata).
    apply (data_bad_movie dkw ms mkw Hms Hin).
    apply (movie_unknown_torrent_field mkw ts tkw k); auto.
Qed.

(** ** Running a search *)

Lemma fetch_urls_app a b : fetch_urls (a ++ b) = fetch_urls a ++ fetch_urls b.
Proof.
  induction a as [|[u|v|r] a IH]; simpl; auto. rewrite IH. reflexivity.
Qed.

Lemma fetch_urls_emits l : fetch_urls (map EvEmit l) = [].
Proof. induction l; simpl; auto. Qed.



Section SearchProperties.

Variable unquote : str -> str.
Variable urlencode : params -> str.
Variable retrieve_url : nat -> str -> res str.
Variable json_loads : str -> res pyval.
Variable repr_container : pyval -> str.

Set Warnings "-notation-for-abbreviation".
Local Notation get_response := (get_response retrieve_url json_loads).
Local Notation format_torrent := (format_torrent repr_container).
Local Notation torrent_body := (torrent_body repr_container).
Local Notation page_body :=
  (page_body retrieve_url json_loads repr_container).
Local Notation first_url := (first_url unquote urlencode).
Local Notation run_search :=
  (run_search unquote urlencode retrieve_url json_loads repr_container).
Local Notation page_emits := (page_emits repr_container).
Set Warnings "notation-for-abbreviation".

Lemma get_response_ok u tr body v resp :
  retrieve_url (length (fetch_urls tr)) u = Ok body ->
  json_loads body = Ok v ->
  convert_response v = Ok resp ->
  get_response u tr = (Ok resp, tr ++ [EvFetch u]).
Proof.
  intros H1 H2 H3. unfold get_response, bind, fetch, lift.
  rewrite H1, H2, H3. reflexivity.
Qed.

(** Whatever it returns, [get_response] makes exactly one fetch. *)
Lemma get_response_trace u tr :
  snd (get_response u tr) = tr ++ [EvFetch u].
Proof.
  unfold get_response, bind, fetch, lift.
  destruct (retrieve_url _ u) as [body|e]; [|reflexivity].
  destruct (json_loads body); reflexivity.
Qed.

Lemma torrent_body_skipped codec resolution movie t tr :
  skipped codec resolution t = true ->
  torrent_body codec resolution movie t tr = (Ok tt, tr).
Proof.
  unfold skipped, torrent_body. intros H.
  destruct (is_set codec && _); [reflexivity|].
  simpl in H. rewrite H. reflexivity.
Qed.

Lemma torrent_body_emitted codec resolution movie t tr :
  skipped codec resolution t = false ->
  torrent_body codec resolution movie t tr
  = (Ok tt, tr ++ [EvEmit (format_torrent movie t)]).
Proof.
  unfold skipped, torrent_body. intros H.
  apply orb_false_iff in H. destruct H as [-> ->]. reflexivity.
Qed.

(** The torrents of one movie: those not skipped are emitted, in
    order. *)
Lemma torrents_loop codec resolution movie ts : forall tr,
  for_each ts (torrent_body codec resolution movie) tr
  = (Ok tt,
     tr ++ map EvEmit
             (map (format_torrent movie)
                  (filter (fun t => negb (skipped codec resolution t))
                          ts))).
Proof.
  induction ts as [|t ts IH]; intros tr; simpl.
  - rewrite app_nil_r. reflexivity.
  - unfold bind. destruct (skipped codec resolution t) eqn:E; simpl.
    + rewrite torrent_body_skipped by exact E. apply IH.
    + rewrite torrent_body_emitted by exact E. rewrite IH.
      rewrite <- app_assoc. reflexivity.
Qed.

Lemma movies_loop codec resolution ms : forall tr,
  for_each ms (fun movie =>
    for_each (yts_movie.torrents movie)
             (torrent_body codec resolution movie)) tr
  = (Ok tt, tr ++ map EvEmit (page_emits codec resolution ms)).
Proof.
  induction ms as [|m ms IH]; intros tr; simpl.
  - rewrite app_nil_r. reflexivity.
  - unfold bind. rewrite torrents_loop, IH.
    rewrite map_app, app_assoc. reflexivity.
Qed.

(** Whatever it returns, the loop body makes exactly one fetch. *)
Lemma page_body_fetches codec resolution u page_no tr :
  fetch_urls (snd (page_body codec resolution u page_no tr))
  = fetch_urls tr ++ [page_url u page_no].
Proof.
  unfold page_body, bind.
  pose proof (get_response_trace (page_url u page_no) tr) as Htr.
  destruct (get_response (page_url u page_no) tr) as [[resp|e] tr'];
    simpl in Htr; subst tr'.
  - unfold lift.
    destruct (iter_movies _) as [ms|e]; simpl.
    + rewrite movies_loop. simpl.
      rewrite !fetch_urls_app, fetch_urls_emits, app_nil_r. reflexivity.
    + rewrite fetch_urls_app. reflexivity.
  - simpl. rewrite fetch_urls_app. reflexivity.
Qed.

(** A loop over pages that completes has fetched every page, in
    order. *)
Lemma pages_loop_fetches codec resolution u pages : forall tr tr',
  for_each pages (page_body codec resolution u) tr = (Ok tt, tr') ->
  fetch_urls tr' = fetch_urls tr ++ map (page_url u) pages.
Proof.
  induction pages as [|n pages IH]; intros tr tr'; simpl.
  - unfold ret. intros [= <-]. rewrite app_nil_r. reflexivity.
  - unfold bind.
    pose proof (page_body_fetches codec resolution u n tr) as Hn.
    destruct (page_body codec resolution u n tr) as [[[]|e] tr1];
      [|discriminate].
    simpl in Hn. intros H. rewrite (IH _ _ H), Hn, <- app_assoc.
    reflexivity.
Qed.

(** The run up to the point where the first response has been decoded
    and found to be [ok] with a non-zero count. *)
Lemma run_search_pages w body v resp :
  retrieve_url 0 (first_url w) = Ok body ->
  json_loads body = Ok v ->
  convert_response v = Ok resp ->
  py_eq_str (yts_response.status resp) "ok" = true ->
  py_eq_int (yts_data.movie_count (yts_response.data resp)) 0 = false ->
  run_search w
  = bind (lift (page_count (yts_response.data resp)))
         (fun n =>
            for_each (range n)
              (page_body (search_codec (parse (unquote w)))
                         (search_resolution (parse (unquote w)))
                         (first_url w)))
         [EvFetch (first_url w)].
Proof.
  intros H1 H2 H3 Hok Hcount.
  unfold run_search, search.
  unfold bind at 1.
  rewrite (get_response_ok (first_url w) [] body v resp H1 H2 H3).
  rewrite Hok, Hcount. reflexivity.
Qed.

(** ** Claims about the fetch loop *)

(** C2 (amended): when the first response is [ok] and reports
    [movie_count = 20] and [limit = 20], the page count is
    [20 // 20 + 1 = 2], and a search that completes has made exactly
    three fetches: the first request, then the loop's requests for
    page 1 and page 2. *)
Theorem twenty_of_twenty_fetches w body v resp tr :
  retrieve_url 0 (first_url w) = Ok body ->
  json_loads body = Ok v ->
  convert_response v = Ok resp ->
  yts_response.status resp = PStr "ok" ->
  yts_data.movie_count (yts_response.data resp) = PInt 20 ->
  yts_data.limit (yts_response.data resp) = PInt 20 ->
  run_search w = (Ok tt, tr) ->
  page_count (yts_response.data resp) = Ok 2%Z
  /\ fetch_urls tr
     = [first_url w; first_url w ++ "&page=1"; first_url w ++ "&page=2"]
  /\ length (fetch_urls tr) = 3%nat.
Proof.
  intros H1 H2 H3 Hstatus Hcount Hlimit Hrun.
  assert (Hpages : page_count (yts_response.data resp) = Ok 2%Z).
  { unfold page_count. rewrite Hcount, Hlimit. reflexivity. }
  split; [exact Hpages|].
  rewrite (run_search_pages w body v resp H1 H2 H3) in Hrun.
  - unfold bind at 1, lift in Hrun. rewrite Hpages in Hrun.
    apply pages_loop_fetches in Hrun. rewrite Hrun. split; reflexivity.
  - rewrite Hstatus. reflexivity.
  - rewrite Hcount. reflexivity.
Qed.

(** C4: the loop body iterates [data.movies] of the page it fetched
    whatever the page's status is; when the page decodes with [movies]
    left at [None], the iteration raises [TypeError] right after the
    fetch, and nothing is emitted for the page. *)
Theorem page_without_movies_raises codec resolution u page_no tr
        body v resp :
  retrieve_url (length (fetch_urls tr)) (page_url u page_no) = Ok body ->
  json_loads body = Ok v ->
  convert_response v = Ok resp ->
  yts_data.movies (yts_response.data resp) = yts_data.Unconverted PNone ->
  page_body codec resolution u page_no tr
  = (Raise TypeError, tr ++ [EvFetch (page_url u page_no)]).
Proof.
  intros H1 H2 H3 Hmovies. unfold page_body, bind.
  rewrite (get_response_ok _ tr body v resp H1 H2 H3).
  rewrite Hmovies. reflexivity.
Qed.

(** An exception in the loop body ends the loop. *)
Lemma for_each_raise {A} (body : A -> M unit) x l tr e tr' :
  body x tr = (Raise e, tr') ->
  for_each (x :: l) body tr = (Raise e, tr').
Proof. intros H. simpl. unfold bind. rewrite H. reflexivity. Qed.

(** C5 (amended): when the first response is [ok] and reports a
    non-zero [movie_count] with [limit = 0], the page count computation
    raises [ZeroDivisionError]; nothing catches it: the search ends with
    that exception after its single fetch, without emitting anything. *)
Theorem zero_limit_raises w body v resp m :
  retrieve_url 0 (first_url w) = Ok body ->
  json_loads body = Ok v ->
  convert_response v = Ok resp ->
  yts_response.status resp = PStr "ok" ->
  as_int (yts_data.movie_count (yts_response.data resp)) = Some m ->
  m <> 0%Z ->
  as_int (yts_data.limit (yts_response.data resp)) = Some 0%Z ->
  run_search w = (Raise ZeroDivisionError, [EvFetch (first_url w)]).
Proof.
  intros H1 H2 H3 Hstatus Hcount Hm Hlimit.
  rewrite (run_search_pages w body v resp H1 H2 H3).
  - unfold bind, lift, page_count, py_floordiv.
    rewrite Hcount, Hlimit. reflexivity.
  - rewrite Hstatus. reflexivity.
  - unfold py_eq_int. rewrite Hcount. apply Z.eqb_neq. exact Hm.
Qed.

(** C7 (amended): when the first response decodes with a status other
    than ["ok"] and the sum [status + status_message] can be computed,
    as it can whenever both are strings, the search prints that sum (for
    strings: the status followed by the status message) and returns
    normally: one fetch, one print, nothing emitted, no exception. *)
Theorem upstream_error_reported w body v resp msg :
  retrieve_url 0 (first_url w) = Ok body ->
  json_loads body = Ok v ->
  convert_response v = Ok resp ->
  py_eq_str (yts_response.status resp) "ok" = false ->
  py_add (yts_response.status resp) (yts_response.status_message resp)
  = Ok msg ->
  run_search w = (Ok tt, [EvFetch (first_url w); EvPrint msg])
  /\ emitted (snd (run_search w)) = []
  /\ printed (snd (run_search w)) = [msg]
  /\ (forall s m,
         yts_response.status resp = PStr s ->
         yts_response.status_message resp = PStr m ->
         msg = PStr (s ++ m)).
Proof.
  intros H1 H2 H3 Hstatus Hadd.
  assert (Hrun : run_search w
            = (Ok tt, [EvFetch (first_url w); EvPrint msg])).
  { unfold run_search, search. unfold bind at 1.
    rewrite (get_response_ok (first_url w) [] body v resp H1 H2 H3).
    rewrite Hstatus. cbn [negb]. unfold bind, lift. rewrite Hadd.
    reflexivity. }
  rewrite Hrun. repeat split.
  intros s m Hs Hm. rewrite Hs, Hm in Hadd. cbn [py_add] in Hadd.
  congruence.
Qed.


End SearchProperties.

(** ** The claims on the scripted remote *)

Example scripted_pages_decode :
  convert_response Script.page_full = Ok Script.page_full_rec
  /\ convert_response Script.page_bare = Ok Script.page_bare_rec
  /\ convert_response Script.page_error = Ok Script.page_error_rec
  /\ convert_response Script.page_zero_limit = Ok Script.page_zero_limit_rec
  /\ convert_response Script.page_broken = Raise TypeError.
Proof. repeat split. Qed.

(** C2, counterexample: the first response reports [movie_count = 20] and
    [limit = 20], the search completes, and it has made three fetches,
    not two: the loop requests page 1 again after the first request. *)
Lemma two_fetches_counterexample :
  convert_response Script.page_full = Ok Script.page_full_rec
  /\ fst (Script.run ["full"; "full"; "empty"] Script.table "dune") = Ok tt
  /\ fetch_urls
       (snd (Script.run ["full"; "full"; "empty"] Script.table "dune"))
     = ["https://yts.bz/api/v2/list_movies.json?query_term=dune";
        "https://yts.bz/api/v2/list_movies.json?query_term=dune&page=1";
        "https://yts.bz/api/v2/list_movies.json?query_term=dune&page=2"]
  /\ length
       (fetch_urls
          (snd (Script.run ["full"; "full"; "empty"] Script.table "dune")))
     <> 2%nat.
Proof.
  repeat split. vm_compute. discriminate.
Qed.

Lemma twenty_of_twenty_fetches_witness :
  page_count (yts_response.data Script.page_full_rec) = Ok 2%Z
  /\ fetch_urls
       (snd (Script.run ["full"; "full"; "empty"] Script.table "dune"))
     = ["https://yts.bz/api/v2/list_movies.json?query_term=dune";
        "https://yts.bz/api/v2/list_movies.json?query_term=dune&page=1";
        "https://yts.bz/api/v2/list_movies.json?query_term=dune&page=2"]
  /\ length
       (fetch_urls
          (snd (Script.run ["full"; "full"; "empty"] Script.table "dune")))
     = 3%nat.
Proof.
  apply (twenty_of_twenty_fetches
           Script.unquote Script.urlencode
           (Script.retrieve_url ["full"; "full"; "empty"])
           (Script.json_loads Script.table) Script.repr_container
           "dune" "full" Script.page_full Script.page_full_rec);
    reflexivity.
Defined.

Lemma page_without_movies_raises_witness :
  page_body (Script.retrieve_url ["full"; "full"; "bare"])
            (Script.json_loads Script.table) Script.repr_container
            None None "https://yts.bz/api/v2/list_movies.json?" 1
            [EvFetch "https://yts.bz/api/v2/list_movies.json?";
             EvFetch "https://yts.bz/api/v2/list_movies.json?&page=1"]
  = (Raise TypeError,
     [EvFetch "https://yts.bz/api/v2/list_movies.json?";
      EvFetch "https://yts.bz/api/v2/list_movies.json?&page=1";
      EvFetch "https://yts.bz/api/v2/list_movies.json?&page=2"]).
Proof.
  apply (page_without_movies_raises
           (Script.retrieve_url ["full"; "full"; "bare"])
           (Script.json_loads Script.table) Script.repr_container
           None None "https://yts.bz/api/v2/list_movies.json?" 1%Z
           [EvFetch "https://yts.bz/api/v2/list_movies.json?";
            EvFetch "https://yts.bz/api/v2/list_movies.json?&page=1"]
           "bare" Script.page_bare Script.page_bare_rec);
    reflexivity.
Defined.

(** The over-fetched page of a 20-of-20 search, when the remote leaves
    [movies] out of it: the records of page 1 have been emitted, then the
    search ends with [TypeError]. *)
Example search_over_fetched_page_raises :
  fst (Script.run ["full"; "full"; "bare"] Script.table "dune x265")
  = Raise TypeError
  /\ map name
       (emitted
          (snd (Script.run ["full"; "full"; "bare"] Script.table
                           "dune x265")))
     = ["Dune (2021) [1080p] [x265] [web] [2.0] [YTS]"].
Proof. split; reflexivity. Qed.

(** C5, counterexample: [limit = 0] with [movie_count = 5].  The search
    ends with [ZeroDivisionError], which is not how a payload that fails
    to decode ends ([TypeError]). *)
Lemma zero_limit_counterexample :
  convert_response Script.page_zero_limit = Ok Script.page_zero_limit_rec
  /\ Script.run ["zero"] Script.table "dune"
     = (Raise ZeroDivisionError,
        [EvFetch "https://yts.bz/api/v2/list_movies.json?query_term=dune"])
  /\ fst (Script.run ["broken"] Script.table "dune") = Raise TypeError
  /\ fst (Script.run ["zero"] Script.table "dune")
     <> fst (Script.run ["broken"] Script.table "dune").
Proof.
  repeat split. vm_compute. discriminate.
Qed.

Lemma zero_limit_raises_witness :
  Script.run ["zero"] Script.table "dune"
  = (Raise ZeroDivisionError,
     [EvFetch "https://yts.bz/api/v2/list_movies.json?query_term=dune"]).
Proof.
  apply (zero_limit_raises
           Script.unquote Script.urlencode (Script.retrieve_url ["zero"])
           (Script.json_loads Script.table) Script.repr_container
           "dune" "zero" Script.page_zero_limit Script.page_zero_limit_rec
           5%Z); try reflexivity. discriminate.
Defined.

Lemma upstream_error_reported_witness :
  Script.run ["error"] Script.table "dune"
  = (Ok tt,
     [EvFetch "https://yts.bz/api/v2/list_movies.json?query_term=dune";
      EvPrint (PStr "errorQuery not successful")])
  /\ emitted (snd (Script.run ["error"] Script.table "dune")) = []
  /\ printed (snd (Script.run ["error"] Script.table "dune"))
     = [PStr "errorQuery not successful"].
Proof.
  destruct (upstream_error_reported
              Script.unquote Script.urlencode
              (Script.retrieve_url ["error"])
              (Script.json_loads Script.table) Script.repr_container
              "dune" "error" Script.page_error Script.page_error_rec
              (PStr "errorQuery not successful"))
    as (Hrun & Hemit & Hprint & _); try reflexivity.
  split; [exact Hrun|]. split; [exact Hemit | exact Hprint].
Defined.


Lemma unknown_fields_witness :
  convert_response
    (PDict ([("status", PStr "ok"); ("status_message", PStr "")]
            ++ ("@meta", PDict [("api_version", PInt 2)])
            :: [("data", Script.data 0 20 1 [])]))
  = convert_response
      (PDict ([("status", PStr "ok"); ("status_message", PStr "")]
              ++ [("data", Script.data 0 20 1 [])])).
Proof.
  apply (proj1 unknown_fields). reflexivity.
Defined.

(** * Further properties of the tag extraction *)

Lemma subseq_parse_quality st : subseq (what (parse_quality st)) (what st).
Proof.
  unfold parse_quality. destruct (re_search _ _);
    [apply subseq_removed | apply subseq_refl].
Qed.

Lemma subseq_length a b : subseq a b -> (length a <= length b)%nat.
Proof. induction 1; simpl; lia. Qed.

(** X1: the free text is the query with characters left out: the
    extraction never adds, changes or reorders a character. *)
Theorem free_text_is_subsequence w :
  subseq (what (parse w)) w /\ (length (what (parse w)) <= length w)%nat.
Proof.
  assert (H : subseq (what (parse w)) w).
  { rewrite parse_unfold. unfold after_codec.
    eapply subseq_trans; [apply subseq_parse_page|].
    eapply subseq_trans; [apply subseq_parse_genre|].
    eapply subseq_trans; [apply subseq_parse_rating|].
    eapply subseq_trans; [apply subseq_parse_codec|].
    apply (subseq_parse_quality (parse_start w)). }
  split; [exact H | apply subseq_length, H].
Qed.

Lemma lstrip_head s :
  match lstrip s with
  | c :: _ => is_space c = false
  | [] => True
  end.
Proof.
  induction s as [|c s IH]; simpl; [exact I|].
  destruct (is_space c) eqn:E; [exact IH | exact E].
Qed.

Lemma last_rev_head (s : str) c d : last (rev (c :: s)) d = c.
Proof. simpl. apply last_last. Qed.

Lemma strip_trimmed s : is_trimmed (strip s) = true.
Proof.
  unfold strip, is_trimmed.
  destruct (rstrip (lstrip s)) as [|c t] eqn:E; [reflexivity|].
  apply andb_true_iff. split; apply negb_true_iff.
  - destruct (rstrip_prefix (lstrip s)) as [post Hp]. rewrite E in Hp.
    pose proof (lstrip_head s) as Hh. rewrite Hp in Hh. exact Hh.
  - unfold rstrip in E.
    pose proof (lstrip_head (rev (lstrip s))) as Hh.
    destruct (lstrip (rev (lstrip s))) as [|x l] eqn:El;
      [discriminate|].
    rewrite <- E. rewrite last_rev_head. exact Hh.
Qed.

(** X2: whatever the query, the free text has no whitespace at either
    end, and it is stored under ["query_term"] exactly when it is not
    empty. *)
Theorem free_text_trimmed w :
  is_trimmed (what (parse w)) = true
  /\ dict_get "query_term" (search_params (parse w))
     = match what (parse w) with
       | [] => None
       | _ => Some (PvStr (what (parse w)))
       end.
Proof.
  split.
  - rewrite parse_unfold. cbn [parse_page what]. apply strip_trimmed.
  - unfold parse, parse_page. cbn [what search_params].
    set (st := parse_genre _).
    destruct (strip (re_sub search_rstring (what st))) as [|c t] eqn:E.
    + unfold st, parse_genre, parse_rating, parse_codec, parse_quality,
        append_codec.
      repeat match goal with
             | |- context [match re_search ?p ?s with _ => _ end] =>
                 destruct (re_search p s)
             end; reflexivity.
    + apply dict_get_set_same.
Qed.

Ltac destruct_searches :=
  repeat match goal with
         | |- context [match re_search ?p ?s with _ => _ end] =>
             destruct (re_search p s)
         end.

(** X3: the query parameters are determined by the extracted values, and
    are stored in a fixed order: ["quality"] (the resolution, with the
    codec as a dotted suffix when both were found), ["minimum_rating"],
    ["genre"], ["query_term"].  No other key is ever set, none twice; a
    codec found without a resolution is not sent upstream at all. *)
Theorem params_follow_values w :
  search_params (parse w) = expected_params (parse w)
  /\ (search_resolution (parse w) = None ->
      dict_get "quality" (search_params (parse w)) = None).
Proof.
  assert (H : search_params (parse w) = expected_params (parse w)).
  { unfold expected_params, parse, parse_page, parse_genre, parse_rating,
      parse_codec, parse_quality, append_codec, parse_start.
    cbn [what search_params search_resolution search_codec min_rating
         genre].
    destruct_searches;
      cbn [what search_params search_resolution search_codec min_rating
           genre dict_get dict_set str_eqb ascii_eqb Ascii.eqb Bool.eqb
           andb app];
      match goal with
      | |- context [strip ?s] => destruct (strip s)
      end; reflexivity. }
  split; [exact H|].
  intros Hnone. rewrite H. unfold expected_params. rewrite Hnone.
  destruct (min_rating (parse w)), (genre (parse w)), (what (parse w));
    reflexivity.
Qed.

Lemma parse_quality_value st r :
  search_resolution (parse_quality st) = Some r ->
  search_resolution st = Some r \/ In r resolutions.
Proof.
  unfold parse_quality.
  destruct (re_search quality_rstring (what st)) as [g|] eqn:E; auto.
  intros [= <-]. right.
  apply quality_group, (re_search_group Quality _ _ E).
Qed.

Lemma parse_codec_canonical st c :
  search_codec (parse_codec st) = Some c ->
  search_codec st = Some c \/ c = "x264" \/ c = "x265".
Proof.
  unfold parse_codec.
  destruct (re_search codec_rstring (what st)) as [g|] eqn:E; auto.
  intros [= <-]. right.
  destruct (codec_group g (re_search_group Codec _ _ E)) as [-> | ->];
    auto.
Qed.

Lemma parse_rating_value st d :
  min_rating (parse_rating st) = Some d ->
  min_rating st = Some d \/ exists c, d = [c] /\ is_digit c = true.
Proof.
  unfold parse_rating.
  destruct (re_search rating_rstring (what st)) as [g|] eqn:E; auto.
  intros [= <-]. right.
  apply rating_group, (re_search_group Rating _ _ E).
Qed.

Lemma parse_genre_value st g :
  genre (parse_genre st) = Some g ->
  genre st = Some g \/ (g <> [] /\ Forall (fun c => is_word c = true) g).
Proof.
  unfold parse_genre.
  destruct (re_search genre_rstring (what st)) as [g'|] eqn:E; auto.
  intros [= <-]. right.
  apply genre_group, (re_search_group Genre _ _ E).
Qed.

Lemma parse_quality_keeps st :
  search_codec (parse_quality st) = search_codec st
  /\ min_rating (parse_quality st) = min_rating st
  /\ genre (parse_quality st) = genre st.
Proof. unfold parse_quality. destruct (re_search _ _); auto. Qed.

Lemma parse_codec_keeps st :
  min_rating (parse_codec st) = min_rating st
  /\ genre (parse_codec st) = genre st.
Proof. unfold parse_codec. destruct (re_search _ _); auto. Qed.

Lemma parse_rating_keeps_genre st :
  genre (parse_rating st) = genre st.
Proof. unfold parse_rating. destruct (re_search _ _); auto. Qed.

(** X4: whatever the query, the extracted values are well-formed: the
    resolution is one of the seven supported values, the codec is [x264]
    or [x265], the rating is a single character, one that [\d] matches,
    and the genre is a non-empty run of characters that [\w] matches. *)
Theorem extracted_values_supported w :
  (forall r, search_resolution (parse w) = Some r -> In r resolutions)
  /\ (forall c, search_codec (parse w) = Some c ->
                c = "x264" \/ c = "x265")
  /\ (forall d, min_rating (parse w) = Some d ->
                exists c, d = [c] /\ is_digit c = true)
  /\ (forall g, genre (parse w) = Some g ->
                g <> [] /\ Forall (fun c => is_word c = true) g).
Proof.
  split; [|split; [|split]].
  - intros r. rewrite parse_resolution. unfold after_codec.
    rewrite parse_codec_resolution. intros H.
    apply parse_quality_value in H. destruct H as [H | H];
      [discriminate | exact H].
  - intros c. rewrite parse_codec_value. unfold after_codec. intros H.
    apply parse_codec_canonical in H. destruct H as [H | H]; [|exact H].
    rewrite (proj1 (parse_quality_keeps _)) in H. discriminate.
  - intros d. rewrite parse_unfold. cbn [parse_page min_rating].
    rewrite parse_genre_min_rating. intros H.
    apply parse_rating_value in H. destruct H as [H | H]; [|exact H].
    unfold after_codec in H.
    rewrite (proj1 (parse_codec_keeps _)) in H.
    rewrite (proj1 (proj2 (parse_quality_keeps _))) in H. discriminate.
  - intros g H. rewrite parse_unfold in H. cbn [parse_page genre] in H.
    apply parse_genre_value in H. destruct H as [H | H]; [|exact H].
    rewrite parse_rating_keeps_genre in H. unfold after_codec in H.
    rewrite (proj2 (parse_codec_keeps _)) in H.
    rewrite (proj2 (proj2 (parse_quality_keeps _))) in H. discriminate.
Qed.

Ltac invert_all_matches :=
  repeat match goal with
  | H : matches (lits _) _ |- _ => apply matches_lits in H; subst
  | H : matches Eps _ |- _ => inversion H; clear H; subst
  | H : matches (Alt _ _) _ |- _ => inversion H; clear H; subst
  | H : matches (Cat _ _) _ |- _ => inversion H; clear H; subst
  | H : matches (Opt _) _ |- _ => inversion H; clear H; subst
  | H : matches (Lit _) _ |- _ => inversion H; clear H; subst
  | H : matches (Cls _) _ |- _ => inversion H; clear H; subst
  | H : matches (ClsPlus _) _ |- _ => inversion H; clear H; subst
  end.

(** Every match of a tag pattern contains one of the tag characters. *)
Lemma tag_match_has_tag_char t h g :
  matches (pat_head (tag_pattern t)) h ->
  matches (pat_group (tag_pattern t)) g ->
  existsb is_tag_char (h ++ g) = true.
Proof.
  destruct t; cbn [tag_pattern pat_head pat_group quality_rstring
                   codec_rstring rating_rstring genre_rstring alts];
    intros Mh Mg; invert_all_matches; reflexivity.
Qed.

Lemma existsb_false_forall {A} (f : A -> bool) l :
  existsb f l = false <-> forallb (fun x => negb (f x)) l = true.
Proof.
  induction l as [|x l IH]; simpl; [tauto|].
  rewrite orb_false_iff, andb_true_iff, negb_true_iff, IH. tauto.
Qed.

Lemma re_search_needs_tag_char t s :
  existsb is_tag_char s = false -> re_search (tag_pattern t) s = None.
Proof.
  intros Hs. destruct (re_search (tag_pattern t) s) as [g|] eqn:E;
    [|reflexivity].
  destruct (re_search_sound _ _ _ E) as (pre & h & rest & -> & Mh & Mg).
  rewrite existsb_app, app_assoc, existsb_app in Hs.
  rewrite (tag_match_has_tag_char t h g Mh Mg) in Hs.
  rewrite orb_true_r in Hs. discriminate.
Qed.

Lemma re_sub_page_needs_ampersand s :
  existsb is_tag_char s = false -> re_sub search_rstring s = s.
Proof.
  unfold re_sub. induction s as [|c s IH]; [reflexivity|].
  cbn [existsb]. intros H. apply orb_false_iff in H. destruct H as [Hc Hs].
  assert (Hamp : ascii_eqb c "&" = false).
  { unfold is_tag_char in Hc. cbn [existsb] in Hc.
    repeat (apply orb_false_iff in Hc; destruct Hc as [? Hc]).
    assumption. }
  cbn [sub_from]. unfold match_len, search_rstring.
  cbn [lits rmatch]. rewrite Hamp. cbn [flat_map].
  f_equal. apply IH, Hs.
Qed.

(** X5: a query that contains none of the characters [=], [p], [D], [x],
    [h], [&] carries no tag: no filter is set, and the query, trimmed, is
    the free text and the only parameter (none at all when it is blank). *)
Theorem plain_query_passes_through w :
  existsb is_tag_char w = false ->
  parse w
  = {| what := strip w;
       search_params :=
         match strip w with
         | [] => []
         | _ => [("query_term", PvStr (strip w))]
         end;
       search_resolution := None;
       search_codec := None;
       min_rating := None;
       genre := None |}.
Proof.
  intros Hw.
  pose proof (re_search_needs_tag_char Quality w Hw) as Hq.
  pose proof (re_search_needs_tag_char Codec w Hw) as Hc.
  pose proof (re_search_needs_tag_char Rating w Hw) as Hr.
  pose proof (re_search_needs_tag_char Genre w Hw) as Hg.
  cbn [tag_pattern] in Hq, Hc, Hr, Hg.
  unfold parse, parse_quality. cbn [what parse_start]. rewrite Hq.
  unfold parse_codec. cbn [what parse_start]. rewrite Hc.
  unfold parse_rating. cbn [what parse_start]. rewrite Hr.
  unfold parse_genre. cbn [what parse_start]. rewrite Hg.
  unfold parse_page. cbn [what parse_start search_params
    search_resolution search_codec min_rating genre].
  rewrite (re_sub_page_needs_ampersand w Hw).
  destruct (strip w); reflexivity.
Qed.

Lemma plain_query_passes_through_witness :
  existsb is_tag_char "  big buck bunny 2008 " = false
  /\ parse "  big buck bunny 2008 "
     = {| what := "big buck bunny 2008";
          search_params := [("query_term", PvStr "big buck bunny 2008")];
          search_resolution := None;
          search_codec := None;
          min_rating := None;
          genre := None |}.
Proof.
  split; [reflexivity|].
  apply (plain_query_passes_through "  big buck bunny 2008 "). reflexivity.
Defined.

Lemma plus_rests_longest p ds b :
  ds <> [] -> forallb p ds = true ->
  match b with c :: _ => p c = false | [] => True end ->
  exists l, plus_rests p (ds ++ b) = b :: l.
Proof.
  intros Hne Hds Hb.
  assert (Hstop : plus_rests p b = []).
  { destruct b as [|c b]; simpl; [reflexivity|]. rewrite Hb. reflexivity. }
  induction ds as [|d ds IH]; [congruence|].
  simpl in Hds. apply andb_true_iff in Hds. destruct Hds as [Hd Hds].
  simpl. rewrite Hd. destruct ds as [|d' ds'].
  - simpl. rewrite Hstop. exists []. reflexivity.
  - destruct (IH ltac:(discriminate) Hds) as [l ->].
    exists (l ++ [(d' :: ds') ++ b]). reflexivity.
Qed.

Lemma sub_from_skip r x : forall y,
  sub_from r (length x) (x ++ y) = sub_from r 0 y.
Proof.
  induction x as [|c x IH]; intros y; simpl; [|apply IH].
  destruct y; reflexivity.
Qed.

Lemma sub_from_page_prefix a s :
  forallb (fun c => negb (ascii_eqb c "&")) a = true ->
  sub_from search_rstring 0 (a ++ s) = a ++ sub_from search_rstring 0 s.
Proof.
  induction a as [|c a IH]; [reflexivity|].
  cbn [forallb]. intros H. apply andb_true_iff in H. destruct H as [Hc Ha].
  apply negb_true_iff in Hc.
  cbn [app sub_from]. unfold match_len, search_rstring.
  cbn [lits rmatch]. rewrite Hc. cbn [flat_map].
  f_equal. apply IH, Ha.
Qed.

Lemma sub_from_match r c s k :
  match_len r (c :: s) = Some (S k) ->
  sub_from r 0 (c :: s) = sub_from r k s.
Proof. cbn [sub_from]. intros ->. reflexivity. Qed.

Lemma match_len_page ds b :
  ds <> [] -> forallb is_digit ds = true ->
  match b with c :: _ => is_digit c = false | [] => True end ->
  match_len search_rstring ("&"%char :: ("page=" ++ ds) ++ b)
  = Some (S (length ("page=" ++ ds))).
Proof.
  intros Hne Hds Hb.
  destruct (plus_rests_longest is_digit ds b Hne Hds Hb) as [l Hl].
  unfold match_len, search_rstring.
  cbn [lits rmatch ascii_eqb Ascii.eqb Bool.eqb flat_map app].
  rewrite app_nil_r. cbn [rmatch]. rewrite Hl. f_equal.
  cbn [length]. rewrite length_app. lia.
Qed.

(** X6: the page guard deletes an embedded [&page=N] with all of its
    digits: when the text reaching the last step is [a ++ "&page=" ++ ds
    ++ b] with [ds] a non-empty run of digits, no [&] in [a] or [b] and
    [b] not starting with a digit, the free text is [a ++ b], trimmed. *)
Theorem page_guard_removes_override st a ds b :
  what st = a ++ "&page=" ++ ds ++ b ->
  forallb (fun c => negb (ascii_eqb c "&")) (a ++ b) = true ->
  ds <> [] ->
  forallb is_digit ds = true ->
  match b with c :: _ => is_digit c = false | [] => True end ->
  what (parse_page st) = strip (a ++ b).
Proof.
  intros Hw Hamp Hne Hds Hb. unfold parse_page. cbn [what].
  rewrite Hw. f_equal. unfold re_sub.
  rewrite forallb_app in Hamp. apply andb_true_iff in Hamp.
  destruct Hamp as [Ha Hb'].
  rewrite (sub_from_page_prefix a _ Ha). f_equal.
  change ("&page=" ++ ds ++ b) with ("&"%char :: ("page=" ++ ds) ++ b).
  rewrite (sub_from_match _ _ _ _ (match_len_page ds b Hne Hds Hb)).
  rewrite sub_from_skip.
  rewrite <- (app_nil_r b) at 1.
  rewrite (sub_from_page_prefix b [] Hb'). apply app_nil_r.
Qed.

Lemma page_guard_removes_override_witness :
  what (parse_page (parse_start "bar&page=32 baz")) = "bar baz".
Proof.
  apply (page_guard_removes_override
           (parse_start "bar&page=32 baz") "bar" "32" " baz");
    try reflexivity. discriminate.
Defined.

Example parse_bar_page :
  parse "bar&page=3"
  = {| what := "bar";
       search_params := [("query_term", PvStr "bar")];
       search_resolution := None;
       search_codec := None;
       min_rating := None;
       genre := None |}.
Proof. reflexivity. Qed.

(** * Further properties of the decoding *)

Lemma mem_In k l : mem k l = true <-> In k l.
Proof.
  unfold mem. rewrite existsb_exists. split.
  - intros (x & Hx & E). apply str_eqb_eq in E. subst. exact Hx.
  - intros H. exists k. split; [exact H | apply str_eqb_refl].
Qed.

Lemma bind_kwargs_ok required optional kw :
  bind_kwargs required optional kw = Ok tt
  <-> (forall k, In k (keys kw) -> In k (required ++ optional))
      /\ (forall f, In f required -> In f (keys kw)).
Proof.
  unfold bind_kwargs.
  destruct (forallb (fun k => mem k (required ++ optional)) (keys kw))
    eqn:E1;
    destruct (forallb (fun f => mem f (keys kw)) required) eqn:E2;
    cbn [andb]; (split; [intros H | intros [H1 H2]]);
    try discriminate; try reflexivity.
  - rewrite forallb_forall in E1, E2. split; intros x Hx; apply mem_In;
      auto.
  - exfalso. assert (E : forallb (fun f => mem f (keys kw)) required
                         = true).
    { apply forallb_forall. intros x Hx. apply mem_In, H2, Hx. }
    congruence.
  - exfalso. assert (E : forallb (fun k => mem k (required ++ optional))
                                 (keys kw) = true).
    { apply forallb_forall. intros x Hx. apply mem_In, H1, Hx. }
    congruence.
  - exfalso. assert (E : forallb (fun f => mem f (keys kw)) required
                         = true).
    { apply forallb_forall. intros x Hx. apply mem_In, H2, Hx. }
    congruence.
Qed.

Lemma bind_kwargs_cases required optional kw :
  bind_kwargs required optional kw = Ok tt
  \/ bind_kwargs required optional kw = Raise TypeError.
Proof. unfold bind_kwargs. destruct (_ && _); auto. Qed.

(** X7: a torrent object decodes exactly when its keys are the fourteen
    declared fields, no more and no fewer; otherwise the constructor
    raises [TypeError].  Each of the fourteen attributes of a decoded
    torrent is the value received under the key of that name. *)
Theorem torrent_decodes_iff_exact_keys kw :
  ((exists t, yts_torrent.new kw = Ok t)
   <-> (forall k, In k (keys kw) <-> In k yts_torrent.fields))
  /\ ((exists t, yts_torrent.new kw = Ok t)
      \/ yts_torrent.new kw = Raise TypeError)
  /\ (forall t, yts_torrent.new kw = Ok t ->
        t = {| yts_torrent.url := arg kw "url";
               yts_torrent.hash := arg kw "hash";
               yts_torrent.quality := arg kw "quality";
               yts_torrent.type := arg kw "type";
               yts_torrent.is_repack := arg kw "is_repack";
               yts_torrent.video_codec := arg kw "video_codec";
               yts_torrent.bit_depth := arg kw "bit_depth";
               yts_torrent.audio_channels := arg kw "audio_channels";
               yts_torrent.seeds := arg kw "seeds";
               yts_torrent.peers := arg kw "peers";
               yts_torrent.size := arg kw "size";
               yts_torrent.size_bytes := arg kw "size_bytes";
               yts_torrent.date_uploaded := arg kw "date_uploaded";
               yts_torrent.date_uploaded_unix :=
                 arg kw "date_uploaded_unix" |}
        /\ (forall f v, dict_get f kw = Some v -> arg kw f = v)).
Proof.
  unfold yts_torrent.new.
  pose proof (bind_kwargs_ok yts_torrent.fields [] kw) as Hok.
  rewrite app_nil_r in Hok.
  destruct (bind_kwargs_cases yts_torrent.fields [] kw) as [E | E];
    rewrite E; cbn [res_bind].
  - split; [|split].
    + split; [|intros _; eexists; reflexivity].
      intros _ k. apply Hok in E. destruct E as [E1 E2].
      split; [apply E1 | apply E2].
    + left. eexists. reflexivity.
    + intros t [= <-]. split; [reflexivity|].
      intros f v Hf. unfold arg. rewrite Hf. reflexivity.
  - split; [|split].
    + split; [intros [t H]; discriminate|].
      intros H. exfalso.
      assert (Hb : bind_kwargs yts_torrent.fields [] kw = Ok tt).
      { apply Hok. split; intros x Hx; apply H, Hx. }
      congruence.
    + right. reflexivity.
    + intros t H. discriminate.
Qed.

Lemma map_res_Forall2 {A B} (f : A -> res B) l : forall l',
  map_res f l = Ok l' -> Forall2 (fun x y => f x = Ok y) l l'.
Proof.
  induction l as [|x l IH]; simpl; intros l'.
  - intros [= <-]. constructor.
  - destruct (f x) as [y|e] eqn:Ex; simpl; [|discriminate].
    destruct (map_res f l) as [ys|e] eqn:El; simpl; [|discriminate].
    intros [= <-]. constructor; auto.
Qed.

Lemma data_new_error kw e : yts_data.new kw = Raise e -> e = TypeError.
Proof.
  unfold yts_data.new.
  destruct (bind_kwargs yts_data.required yts_data.optional kw) eqn:Eb;
    cbn [res_bind].
  - unfold yts_data.post_init.
    destruct (py_truthy (arg kw "movies")); [|discriminate].
    destruct (py_iter (arg kw "movies")) as [items|e1] eqn:Ei;
      cbn [res_bind].
    + destruct (map_res _ items) as [ms|e2] eqn:Em; cbn [res_bind];
        [discriminate|].
      intros [= <-].
      apply (map_res_error _ TypeError items e2 movie_item_error Em).
    + intros [= <-]. apply (py_iter_error _ _ Ei).
  - intros [= <-]. apply (bind_kwargs_error _ _ _ _ Eb).
Qed.

(** X9: after decoding, [data.movies] is either a non-empty list of
    decoded movies or the falsy value that was received ([None] when the
    field was absent); iterating it in the search loop yields movies,
    yields nothing, or raises [TypeError], and never finds an item that
    is not a decoded movie. *)
Theorem decoded_movies_invariant kw d :
  yts_data.new kw = Ok d ->
  ((exists l, yts_data.movies d = yts_data.Converted l /\ l <> [])
   \/ (yts_data.movies d = yts_data.Unconverted (arg kw "movies")
       /\ py_truthy (arg kw "movies") = false))
  /\ (dict_get "movies" kw = None ->
      yts_data.movies d = yts_data.Unconverted PNone)
  /\ iter_movies (yts_data.movies d) <> Raise AttributeError.
Proof.
  unfold yts_data.new.
  destruct (bind_kwargs yts_data.required yts_data.optional kw);
    cbn [res_bind]; [|discriminate].
  unfold yts_data.post_init.
  destruct (py_truthy (arg kw "movies")) eqn:Et.
  - destruct (py_iter (arg kw "movies")) as [items|] eqn:Ei;
      cbn [res_bind]; [|discriminate].
    destruct (map_res _ items) as [ms|] eqn:Em; cbn [res_bind];
      [|discriminate].
    intros [= <-]. cbn [yts_data.movies].
    assert (Hne : ms <> []).
    { intros ->. apply map_res_Forall2 in Em. inversion Em; subst.
      destruct (arg kw "movies") as [| | | s | l | dd];
        try discriminate; cbn [py_iter] in Ei; injection Ei as Ei.
      - destruct s; discriminate.
      - subst l. discriminate.
      - destruct dd; discriminate. }
    split; [left; eauto|]. split.
    + intros Hmiss. unfold arg in Et. rewrite Hmiss in Et. discriminate.
    + discriminate.
  - cbn [res_bind]. intros [= <-]. cbn [yts_data.movies].
    split; [right; auto|]. split.
    + intros Hmiss. unfold arg. rewrite Hmiss. reflexivity.
    + unfold iter_movies.
      destruct (arg kw "movies") as [| b | n | s | l | dd];
        cbn [py_iter res_bind]; try discriminate.
      * destruct s; [discriminate | discriminate Et].
      * destruct l; [discriminate | discriminate Et].
      * destruct dd; [discriminate | discriminate Et].
Qed.

Lemma decoded_movies_invariant_witness :
  yts_data.movies (yts_response.data Script.page_bare_rec)
  = yts_data.Unconverted PNone.
Proof.
  apply (decoded_movies_invariant
           [("movie_count", PInt 20); ("limit", PInt 20);
            ("page_number", PInt 2)]
           (yts_response.data Script.page_bare_rec)); reflexivity.
Defined.

(** X10: decoding keeps the order of the catalog: the decoded movies of a
    page are the movie objects of the payload, one for one and in order,
    and the decoded torrents of a movie are its torrent objects, one for
    one and in order. *)
Theorem decoding_keeps_order :
  (forall dkw d ms,
      yts_data.new dkw = Ok d ->
      arg dkw "movies" = PList ms -> ms <> [] ->
      exists l,
        yts_data.movies d = yts_data.Converted l
        /\ Forall2 (fun v m => exists mkw,
                        v = PDict mkw /\ yts_movie.new mkw = Ok m)
                   ms l)
  /\ (forall mkw m ts,
         yts_movie.new mkw = Ok m ->
         arg mkw "torrents" = PList ts ->
         Forall2 (fun v t => exists tkw,
                      v = PDict tkw /\ yts_torrent.new tkw = Ok t)
                 ts (yts_movie.torrents m)).
Proof.
  split.
  - intros dkw d ms Hnew Hms Hne. unfold yts_data.new in Hnew.
    destruct (bind_kwargs _ _ dkw); cbn [res_bind] in Hnew;
      [|discriminate].
    rewrite Hms in Hnew. unfold yts_data.post_init in Hnew.
    assert (Ht : py_truthy (PList ms) = true)
      by (destruct ms; [congruence | reflexivity]).
    rewrite Ht in Hnew. cbn [py_iter res_bind] in Hnew.
    destruct (map_res _ ms) as [l|] eqn:Em; cbn [res_bind] in Hnew;
      [|discriminate].
    injection Hnew as <-. exists l. split; [reflexivity|].
    apply map_res_Forall2 in Em. revert Em. apply Forall2_impl.
    intros v m Hv. destruct v; try discriminate.
    cbn [kwargs res_bind] in Hv. eauto.
  - intros mkw m ts Hnew Hts. unfold yts_movie.new in Hnew.
    destruct (bind_kwargs _ _ mkw); cbn [res_bind] in Hnew;
      [|discriminate].
    rewrite Hts in Hnew. unfold yts_movie.post_init in Hnew.
    cbn [py_iter res_bind] in Hnew.
    destruct (map_res _ ts) as [l|] eqn:Em; cbn [res_bind] in Hnew;
      [|discriminate].
    injection Hnew as <-. cbn [yts_movie.torrents].
    apply map_res_Forall2 in Em. revert Em. apply Forall2_impl.
    intros v t Hv. destruct v; try discriminate.
    cbn [kwargs res_bind] in Hv. eauto.
Qed.

(** * Further properties of a search *)

Lemma emitted_app a b : emitted (a ++ b) = emitted a ++ emitted b.
Proof.
  induction a as [|[u|v|r] a IH]; simpl; auto. rewrite IH. reflexivity.
Qed.

Lemma printed_app a b : printed (a ++ b) = printed a ++ printed b.
Proof.
  induction a as [|[u|v|r] a IH]; simpl; auto. rewrite IH. reflexivity.
Qed.

Lemma emitted_emits l : emitted (map EvEmit l) = l.
Proof. induction l; simpl; congruence. Qed.

Lemma printed_emits l : printed (map EvEmit l) = [].
Proof. induction l; simpl; auto. Qed.

Lemma py_eq_str_true v s : py_eq_str v s = true -> v = PStr s.
Proof.
  destruct v; simpl; try discriminate.
  intros H. apply str_eqb_eq in H. congruence.
Qed.

Lemma for_each_app {A} (body : A -> M unit) l1 l2 tr :
  for_each (l1 ++ l2) body tr
  = bind (for_each l1 body) (fun _ => for_each l2 body) tr.
Proof.
  revert tr; induction l1 as [|x l1 IH]; intros tr; simpl.
  - reflexivity.
  - unfold bind. destruct (body x tr) as [[[]|e] tr1]; [|reflexivity].
    apply IH.
Qed.

(** The filters that the extraction binds are never the empty string. *)
Lemma parse_filters_set w :
  (forall c, search_codec (parse w) = Some c -> is_set (Some c) = true)
  /\ (forall r, search_resolution (parse w) = Some r ->
                is_set (Some r) = true).
Proof.
  split.
  - intros c. rewrite parse_codec_value. unfold after_codec. intros H.
    apply parse_codec_canonical in H. destruct H as [H | [-> | ->]];
      [|reflexivity ..].
    rewrite (proj1 (parse_quality_keeps _)) in H. discriminate.
  - intros r. rewrite parse_resolution. unfold after_codec.
    rewrite parse_codec_resolution. intros H.
    apply parse_quality_value in H. destruct H as [H | H];
      [discriminate|].
    simpl in H. intuition (subst; reflexivity).
Qed.

Lemma not_skipped_passes codec resolution t :
  (forall c, codec = Some c -> is_set (Some c) = true) ->
  (forall r, resolution = Some r -> is_set (Some r) = true) ->
  skipped codec resolution t = false ->
  (forall c, codec = Some c -> yts_torrent.video_codec t = PStr c)
  /\ (forall q, resolution = Some q -> yts_torrent.quality t = PStr q).
Proof.
  intros Hc Hr Hs. unfold skipped in Hs. apply orb_false_iff in Hs.
  destruct Hs as [H1 H2]. split.
  - intros c ->. rewrite (Hc c eq_refl) in H1. cbn [andb differs] in H1.
    apply negb_false_iff in H1. apply py_eq_str_true, H1.
  - intros q ->. rewrite (Hr q eq_refl) in H2. cbn [andb differs] in H2.
    apply negb_false_iff in H2. apply py_eq_str_true, H2.
Qed.

Section SearchRuns.

Variable unquote : str -> str.
Variable urlencode : params -> str.
Variable retrieve_url : nat -> str -> res str.
Variable json_loads : str -> res pyval.
Variable repr_container : pyval -> str.

Set Warnings "-notation-for-abbreviation".
Local Notation get_response := (get_response retrieve_url json_loads).
Local Notation format_torrent := (format_torrent repr_container).
Local Notation torrent_body := (torrent_body repr_container).
Local Notation page_body :=
  (page_body retrieve_url json_loads repr_container).
Local Notation first_url := (first_url unquote urlencode).
Local Notation run_search :=
  (run_search unquote urlencode retrieve_url json_loads repr_container).
Local Notation page_emits := (page_emits repr_container).
Local Notation page_answers := (page_answers retrieve_url json_loads).
Local Notation page_fails := (page_fails retrieve_url json_loads).
Local Notation first_request_fails :=
  (first_request_fails retrieve_url json_loads).
Local Notation pages_trace := (pages_trace repr_container).
Local Notation passes_filters := (passes_filters repr_container).
Set Warnings "notation-for-abbreviation".

Lemma page_body_ok codec resolution u n tr ms :
  page_answers (length (fetch_urls tr)) (page_url u n) ms ->
  page_body codec resolution u n tr
  = (Ok tt,
     tr ++ EvFetch (page_url u n)
        :: map EvEmit (page_emits codec resolution ms)).
Proof.
  intros (body & v & resp & H1 & H2 & H3 & H4).
  unfold page_body, bind.
  rewrite (get_response_ok retrieve_url json_loads _ tr body v resp
             H1 H2 H3).
  unfold lift. rewrite H4.
  rewrite (movies_loop repr_container). rewrite <- app_assoc.
  reflexivity.
Qed.

Lemma page_body_fails codec resolution u n tr e :
  page_fails (length (fetch_urls tr)) (page_url u n) e ->
  page_body codec resolution u n tr
  = (Raise e, tr ++ [EvFetch (page_url u n)]).
Proof.
  unfold page_body, get_response, bind, fetch, lift.
  intros [H1 | [(body & H1 & H2) | [(body & v & H1 & H2 & H3)
                                   | (body & v & resp & H1 & H2 & H3 & H4)]]];
    rewrite H1; try rewrite H2; try rewrite H3; try rewrite H4;
    reflexivity.
Qed.

Lemma pages_trace_fetches codec resolution u movies first count :
  fetch_urls (pages_trace codec resolution u movies first count)
  = map (fun i => page_url u (Z.of_nat i)) (seq first count).
Proof.
  unfold pages_trace. induction (seq first count) as [|i l IH];
    [reflexivity|].
  cbn [flat_map map]. rewrite fetch_urls_app. cbn [fetch_urls].
  rewrite fetch_urls_emits, IH. reflexivity.
Qed.

Lemma pages_trace_emitted codec resolution u movies first count :
  emitted (pages_trace codec resolution u movies first count)
  = flat_map (fun i => page_emits codec resolution (movies i))
             (seq first count).
Proof.
  unfold pages_trace. induction (seq first count) as [|i l IH];
    [reflexivity|].
  cbn [flat_map]. rewrite emitted_app. cbn [emitted].
  rewrite emitted_emits, IH. reflexivity.
Qed.

(** The loop over pages that all answer. *)
Lemma pages_loop_ok codec resolution u movies count : forall first tr,
  length (fetch_urls tr) = S first ->
  (forall i, (first <= i < first + count)%nat ->
             page_answers (S i) (page_url u (Z.of_nat i)) (movies i)) ->
  for_each (map Z.of_nat (seq first count))
           (page_body codec resolution u) tr
  = (Ok tt, tr ++ pages_trace codec resolution u movies first count).
Proof.
  induction count as [|count IH]; intros first tr Hlen Hpages.
  - simpl. unfold ret, pages_trace. simpl. rewrite app_nil_r. reflexivity.
  - cbn [seq map for_each]. unfold bind.
    rewrite (page_body_ok codec resolution u (Z.of_nat first) tr
               (movies first)).
    + rewrite (IH (S first)).
      * unfold pages_trace. cbn [seq flat_map].
        rewrite <- app_assoc. reflexivity.
      * rewrite fetch_urls_app. cbn [fetch_urls].
        rewrite fetch_urls_emits, length_app. simpl. lia.
      * intros i Hi. apply Hpages. lia.
    + rewrite Hlen. apply Hpages. lia.
Qed.

(** X11: when the first response is [ok] and reports a count equal to
    zero, the search returns normally after its single fetch: no page is
    requested, nothing is printed, nothing is emitted. *)
Theorem zero_count_is_silent w body v resp :
  retrieve_url 0 (first_url w) = Ok body ->
  json_loads body = Ok v ->
  convert_response v = Ok resp ->
  yts_response.status resp = PStr "ok" ->
  as_int (yts_data.movie_count (yts_response.data resp)) = Some 0%Z ->
  run_search w = (Ok tt, [EvFetch (first_url w)]).
Proof.
  intros H1 H2 H3 Hstatus Hcount.
  unfold run_search, search. unfold bind at 1.
  rewrite (get_response_ok retrieve_url json_loads (first_url w) []
             body v resp H1 H2 H3).
  rewrite Hstatus. unfold py_eq_int. rewrite Hcount. reflexivity.
Qed.

(** X12: when the first request fails, in the transport, in [json.loads]
    or in the decoding, the exception reaches the caller as it is;
    nothing else has happened than the one fetch. *)
Theorem first_request_failure_propagates w e :
  first_request_fails (first_url w) e ->
  run_search w = (Raise e, [EvFetch (first_url w)]).
Proof.
  unfold run_search, search, get_response, bind, fetch, lift.
  cbn [fetch_urls length app].
  intros [H1 | [(body & H1 & H2) | (body & v & H1 & H2 & H3)]];
    rewrite H1; try rewrite H2; try rewrite H3; reflexivity.
Qed.

(** X13: a search whose first response is [ok] with a non-zero count and
    whose [n] pages all answer requests page 1 to page [n] in order after
    the first request, and emits, page after page, the records of the
    torrents that pass the filters, movies and torrents in the order of
    each page.  The movies of the first response itself are not used. *)
Theorem search_emits_pages_in_order w body v resp n movies :
  retrieve_url 0 (first_url w) = Ok body ->
  json_loads body = Ok v ->
  convert_response v = Ok resp ->
  yts_response.status resp = PStr "ok" ->
  py_eq_int (yts_data.movie_count (yts_response.data resp)) 0 = false ->
  page_count (yts_response.data resp) = Ok n ->
  (forall i, (i < Z.to_nat n)%nat ->
             page_answers (S i) (page_url (first_url w) (Z.of_nat i))
                          (movies i)) ->
  run_search w
  = (Ok tt,
     EvFetch (first_url w)
     :: pages_trace (search_codec (parse (unquote w)))
                    (search_resolution (parse (unquote w)))
                    (first_url w) movies 0 (Z.to_nat n))
  /\ emitted (snd (run_search w))
     = flat_map (fun i =>
                   page_emits (search_codec (parse (unquote w)))
                              (search_resolution (parse (unquote w)))
                              (movies i))
                (seq 0 (Z.to_nat n)).
Proof.
  intros H1 H2 H3 Hstatus Hcount Hn Hpages.
  assert (Hrun : run_search w
    = (Ok tt,
       EvFetch (first_url w)
       :: pages_trace (search_codec (parse (unquote w)))
                      (search_resolution (parse (unquote w)))
                      (first_url w) movies 0 (Z.to_nat n))).
  { rewrite (run_search_pages unquote urlencode retrieve_url json_loads
               repr_container w body v resp H1 H2 H3);
      [|rewrite Hstatus; reflexivity | exact Hcount].
    unfold bind at 1, lift. rewrite Hn. unfold range.
    rewrite (pages_loop_ok _ _ _ movies (Z.to_nat n) 0);
      [reflexivity | reflexivity |].
    intros i Hi. apply Hpages. lia. }
  split; [exact Hrun|].
  rewrite Hrun. cbn [snd emitted]. apply pages_trace_emitted.
Qed.

(** X14: when page [j] of the loop fails after the pages before it have
    answered, the exception reaches the caller; what was emitted for the
    earlier pages stands, and no request is made after the failed one. *)
Theorem page_failure_aborts w body v resp n movies j e :
  retrieve_url 0 (first_url w) = Ok body ->
  json_loads body = Ok v ->
  convert_response v = Ok resp ->
  yts_response.status resp = PStr "ok" ->
  py_eq_int (yts_data.movie_count (yts_response.data resp)) 0 = false ->
  page_count (yts_response.data resp) = Ok n ->
  (j < Z.to_nat n)%nat ->
  (forall i, (i < j)%nat ->
             page_answers (S i) (page_url (first_url w) (Z.of_nat i))
                          (movies i)) ->
  page_fails (S j) (page_url (first_url w) (Z.of_nat j)) e ->
  run_search w
  = (Raise e,
     EvFetch (first_url w)
     :: pages_trace (search_codec (parse (unquote w)))
                    (search_resolution (parse (unquote w)))
                    (first_url w) movies 0 j
     ++ [EvFetch (page_url (first_url w) (Z.of_nat j))]).
Proof.
  intros H1 H2 H3 Hstatus Hcount Hn Hj Hpages Hfail.
  rewrite (run_search_pages unquote urlencode retrieve_url json_loads
             repr_container w body v resp H1 H2 H3);
    [|rewrite Hstatus; reflexivity | exact Hcount].
  unfold bind at 1, lift. rewrite Hn. unfold range.
  replace (Z.to_nat n) with (j + S (Z.to_nat n - S j))%nat by lia.
  rewrite seq_app, map_app, for_each_app. unfold bind at 1.
  rewrite (pages_loop_ok _ _ _ movies j 0);
    [|reflexivity | intros i Hi; apply Hpages; lia].
  cbn [seq map Nat.add].
  apply for_each_raise.
  rewrite page_body_fails with (e := e); [reflexivity|].
  cbn [app fetch_urls length].
  rewrite pages_trace_fetches, length_map, length_seq. exact Hfail.
Qed.

End SearchRuns.

Lemma firstn_seq_le j : forall a n,
  (j <= n)%nat -> firstn j (seq a n) = seq a j.
Proof.
  induction j as [|j IH]; intros a n Hj; [reflexivity|].
  destruct n as [|n]; [lia|]. simpl. f_equal. apply IH. lia.
Qed.

Lemma firstn_range j n :
  (j <= length (range n))%nat -> firstn j (range n) = range (Z.of_nat j).
Proof.
  unfold range. rewrite length_map, length_seq. intros Hj.
  rewrite firstn_map, (firstn_seq_le j 0 _ Hj), Nat2Z.id. reflexivity.
Qed.

Section SearchShape.

Variable unquote : str -> str.
Variable urlencode : params -> str.
Variable retrieve_url : nat -> str -> res str.
Variable json_loads : str -> res pyval.
Variable repr_container : pyval -> str.

Set Warnings "-notation-for-abbreviation".
Local Notation get_response := (get_response retrieve_url json_loads).
Local Notation format_torrent := (format_torrent repr_container).
Local Notation page_body :=
  (page_body retrieve_url json_loads repr_container).
Local Notation first_url := (first_url unquote urlencode).
Local Notation run_search :=
  (run_search unquote urlencode retrieve_url json_loads repr_container).
Local Notation page_emits := (page_emits repr_container).
Local Notation passes_filters := (passes_filters repr_container).
Set Warnings "notation-for-abbreviation".

Lemma page_emits_not_skipped codec resolution ms r :
  In r (page_emits codec resolution ms) ->
  exists movie torrent,
    r = format_torrent movie torrent
    /\ skipped codec resolution torrent = false.
Proof.
  unfold page_emits. intros H. apply in_flat_map in H.
  destruct H as (m & _ & H). apply in_map_iff in H.
  destruct H as (t & <- & H). apply filter_In in H.
  destruct H as [_ H]. apply negb_true_iff in H. eauto.
Qed.

(** Whatever happens, the loop body leaves one fetch in the trace,
    followed by records of torrents that were not skipped. *)
Lemma page_body_shape codec resolution u n tr :
  exists rs,
    snd (page_body codec resolution u n tr)
    = tr ++ EvFetch (page_url u n) :: map EvEmit rs
    /\ Forall (fun r => exists movie torrent,
                   r = format_torrent movie torrent
                   /\ skipped codec resolution torrent = false) rs.
Proof.
  unfold page_body, bind.
  pose proof (get_response_trace retrieve_url json_loads
                (page_url u n) tr) as Htr.
  destruct (get_response (page_url u n) tr) as [[resp|e] tr'];
    simpl in Htr; subst tr'.
  - unfold lift. destruct (iter_movies _) as [ms|e].
    + rewrite (movies_loop repr_container). cbn [snd].
      exists (page_emits codec resolution ms). split.
      * rewrite <- app_assoc. reflexivity.
      * apply Forall_forall. intros r.
        apply page_emits_not_skipped.
    + exists []. split; [reflexivity | constructor].
  - exists []. split; [reflexivity | constructor].
Qed.

(** Whatever happens, the loop requests a prefix of its pages, in order,
    prints nothing, and emits only records of torrents that were not
    skipped. *)
Lemma pages_loop_shape codec resolution u pages : forall tr,
  exists j evs,
    (j <= length pages)%nat
    /\ snd (for_each pages (page_body codec resolution u) tr) = tr ++ evs
    /\ fetch_urls evs = map (page_url u) (firstn j pages)
    /\ printed evs = []
    /\ Forall (fun r => exists movie torrent,
                   r = format_torrent movie torrent
                   /\ skipped codec resolution torrent = false)
              (emitted evs).
Proof.
  induction pages as [|n pages IH]; intros tr.
  - exists 0%nat, []. simpl. rewrite app_nil_r. repeat split; auto.
  - cbn [for_each]. unfold bind.
    destruct (page_body_shape codec resolution u n tr) as (rs & Hrs & Hp).
    destruct (page_body codec resolution u n tr) as [[[]|e] tr1];
      cbn [snd] in Hrs; subst tr1.
    + destruct (IH (tr ++ EvFetch (page_url u n) :: map EvEmit rs))
        as (j & evs & Hj & Hsnd & Hf & Hpr & He).
      exists (S j), ((EvFetch (page_url u n) :: map EvEmit rs) ++ evs).
      split; [simpl; lia|]. split; [|split; [|split]].
      * rewrite Hsnd, <- app_assoc. reflexivity.
      * rewrite fetch_urls_app. cbn [fetch_urls firstn map].
        rewrite fetch_urls_emits, Hf. reflexivity.
      * rewrite printed_app. cbn [printed]. rewrite printed_emits, Hpr.
        reflexivity.
      * rewrite emitted_app. cbn [emitted]. rewrite emitted_emits.
        apply Forall_app. split; assumption.
    + exists 1%nat, (EvFetch (page_url u n) :: map EvEmit rs).
      split; [simpl; lia|]. split; [reflexivity|]. split; [|split].
      * cbn [fetch_urls firstn map]. rewrite fetch_urls_emits.
        reflexivity.
      * cbn [printed]. apply printed_emits.
      * cbn [emitted]. rewrite emitted_emits. exact Hp.
Qed.

(** Every run: the first fetch, then either nothing, or one print, or a
    prefix of the loop. *)
Lemma run_search_shape w :
  exists evs,
    snd (run_search w) = EvFetch (first_url w) :: evs
    /\ ((exists v, evs = [EvPrint v])
        \/ (exists j,
               fetch_urls evs
               = map (page_url (first_url w)) (range (Z.of_nat j))
               /\ printed evs = []
               /\ Forall (fun r => exists movie torrent,
                              r = format_torrent movie torrent
                              /\ skipped (search_codec (parse (unquote w)))
                                   (search_resolution (parse (unquote w)))
                                   torrent = false)
                         (emitted evs))).
Proof.
  assert (Hnone : forall tr : trace, tr = [] ->
            exists j,
              fetch_urls tr
              = map (page_url (first_url w)) (range (Z.of_nat j))
              /\ printed tr = []
              /\ Forall (fun r => exists movie torrent,
                             r = format_torrent movie torrent
                             /\ skipped (search_codec (parse (unquote w)))
                                  (search_resolution (parse (unquote w)))
                                  torrent = false)
                        (emitted tr)).
  { intros tr ->. exists 0%nat. repeat split. constructor. }
  unfold run_search, search. unfold bind at 1.
  pose proof (get_response_trace retrieve_url json_loads
                (first_url w) []) as Htr.
  destruct (get_response (first_url w) []) as [[resp|e] tr'];
    simpl in Htr; subst tr'.
  - destruct (negb (py_eq_str (yts_response.status resp) "ok")).
    + unfold bind, lift.
      destruct (py_add _ _) as [msg|e]; cbn [snd].
      * exists [EvPrint msg]. split; [reflexivity|]. left. eauto.
      * exists []. split; [reflexivity|]. right. apply Hnone. reflexivity.
    + destruct (py_eq_int _ 0).
      * exists []. split; [reflexivity|]. right. apply Hnone. reflexivity.
      * unfold bind at 1, lift.
        destruct (page_count _) as [n|e]; cbn [snd].
        -- destruct (pages_loop_shape
                       (search_codec (parse (unquote w)))
                       (search_resolution (parse (unquote w)))
                       (first_url w) (range n) [EvFetch (first_url w)])
             as (j & evs & Hj & Hsnd & Hf & Hpr & He).
           exists evs. split; [rewrite Hsnd; reflexivity|].
           right. exists j. rewrite Hf, (firstn_range j n Hj). auto.
        -- exists []. split; [reflexivity|]. right. apply Hnone.
           reflexivity.
  - exists []. split; [reflexivity|]. right. apply Hnone. reflexivity.
Qed.

(** X15: in every run, whatever the remote answers, the requests are the
    first URL followed by the URLs of page 1 to page [k] in order, for
    some [k]: no other URL is requested, no page twice, none out of
    order. *)
Theorem requests_are_first_then_pages w :
  exists k : nat,
    fetch_urls (snd (run_search w))
    = first_url w
      :: map (page_url (first_url w)) (range (Z.of_nat k)).
Proof.
  destruct (run_search_shape w) as (evs & -> & [[v ->] | (j & Hf & _)]).
  - exists 0%nat. reflexivity.
  - exists j. cbn [fetch_urls]. rewrite Hf. reflexivity.
Qed.

(** X16: in every run, either nothing is printed, or exactly one message
    is printed and then nothing is requested or emitted any more: a run
    that reports an upstream error emits no record. *)
Theorem print_excludes_emission w :
  printed (snd (run_search w)) = []
  \/ (exists v,
         printed (snd (run_search w)) = [v]
         /\ emitted (snd (run_search w)) = []
         /\ fetch_urls (snd (run_search w)) = [first_url w]).
Proof.
  destruct (run_search_shape w) as (evs & -> & [[v ->] | (j & _ & Hp & _)]).
  - right. exists v. repeat split.
  - left. cbn [printed]. exact Hp.
Qed.

(** X17: in every run, whatever the remote answers, each emitted record
    was built from a torrent that passes the filters of the query: its
    [video_codec] is the codec found in the query, if one was found, and
    its [quality] is the bare resolution found, if one was found. *)
Theorem emitted_records_pass_filters w r :
  In r (emitted (snd (run_search w))) ->
  passes_filters (search_codec (parse (unquote w)))
                 (search_resolution (parse (unquote w))) r.
Proof.
  destruct (run_search_shape w) as (evs & -> & [[v ->] | (j & _ & _ & He)]).
  - intros [].
  - cbn [snd emitted]. intros Hin.
    rewrite Forall_forall in He.
    destruct (He r Hin) as (movie & torrent & -> & Hskip).
    exists movie, torrent. split; [reflexivity|].
    destruct (parse_filters_set (unquote w)) as [Hc Hr].
    apply (not_skipped_passes _ _ torrent Hc Hr Hskip).
Qed.

End SearchShape.

Lemma emitted_records_pass_filters_witness :
  passes_filters Script.repr_container (Some "x265") None
    (format_torrent Script.repr_container
       (Script.movie_rec [Script.torrent_rec "1080p" "x264";
                          Script.torrent_rec "1080p" "x265"])
       (Script.torrent_rec "1080p" "x265")).
Proof.
  apply (emitted_records_pass_filters
           Script.unquote Script.urlencode
           (Script.retrieve_url ["full"; "full"; "empty"])
           (Script.json_loads Script.table) Script.repr_container
           "dune x265").
  left. reflexivity.
Defined.

(** X18: for a non-negative count [c] and a positive page size [l], the
    page count [n = c // l + 1] covers all results, [(n - 1) * l <= c <
    n * l]; when [l] divides [c] the last page requested lies wholly
    beyond the results. *)
Theorem page_count_covers d c l :
  as_int (yts_data.movie_count d) = Some c ->
  as_int (yts_data.limit d) = Some l ->
  (0 <= c)%Z -> (0 < l)%Z ->
  exists n,
    page_count d = Ok n
    /\ (1 <= n)%Z
    /\ ((n - 1) * l <= c < n * l)%Z
    /\ ((c mod l = 0)%Z -> ((n - 1) * l = c)%Z).
Proof.
  intros Hc Hl Hc0 Hl0. exists (c / l + 1)%Z.
  unfold page_count, py_floordiv. rewrite Hc, Hl.
  replace (l =? 0)%Z with false by (symmetry; apply Z.eqb_neq; lia).
  cbn [res_bind].
  pose proof (Z.div_mod c l ltac:(lia)) as Hdm.
  pose proof (Z.mod_pos_bound c l Hl0) as Hmod.
  pose proof (Z.div_pos c l Hc0 Hl0) as Hdiv.
  repeat split; try lia; try nia.
Qed.

Lemma page_count_covers_witness :
  exists n,
    page_count (yts_response.data Script.page_full_rec) = Ok n
    /\ (1 <= n)%Z
    /\ ((n - 1) * 20 <= 20 < n * 20)%Z
    /\ ((20 mod 20 = 0)%Z -> ((n - 1) * 20 = 20)%Z).
Proof.
  apply (page_count_covers (yts_response.data Script.page_full_rec)
           20%Z 20%Z); try reflexivity; lia.
Defined.

(** ** The further properties on the scripted remote *)

Lemma zero_count_is_silent_witness :
  Script.run ["none"] [("none", Cases.page_none)] "dune"
  = (Ok tt, [EvFetch Cases.dune_url]).
Proof.
  apply (zero_count_is_silent
           Script.unquote Script.urlencode (Script.retrieve_url ["none"])
           (Script.json_loads [("none", Cases.page_none)])
           Script.repr_container
           "dune" "none" Cases.page_none Cases.page_none_rec);
    reflexivity.
Defined.

Lemma first_request_failure_propagates_witness :
  Script.run [] Script.table "dune"
  = (Raise (External "URLError"), [EvFetch Cases.dune_url]).
Proof.
  apply (first_request_failure_propagates
           Script.unquote Script.urlencode (Script.retrieve_url [])
           (Script.json_loads Script.table) Script.repr_container
           "dune" (External "URLError")).
  left. reflexivity.
Defined.

Lemma search_emits_pages_in_order_witness :
  Script.run ["full"; "full"; "empty"] Script.table "dune x265"
  = (Ok tt,
     [EvFetch Cases.dune_url;
      EvFetch (Cases.dune_url ++ "&page=1");
      EvEmit Cases.dune_x265;
      EvFetch (Cases.dune_url ++ "&page=2")])
  /\ emitted
       (snd (Script.run ["full"; "full"; "empty"] Script.table "dune x265"))
     = [Cases.dune_x265].
Proof.
  apply (search_emits_pages_in_order
           Script.unquote Script.urlencode
           (Script.retrieve_url ["full"; "full"; "empty"])
           (Script.json_loads Script.table) Script.repr_container
           "dune x265" "full" Script.page_full Script.page_full_rec
           2%Z Cases.movies); try reflexivity.
  intros i Hi. destruct i as [|[|i]].
  - exists "full", Script.page_full, Script.page_full_rec.
    repeat split.
  - exists "empty", Script.page_empty,
      (Script.response_rec "ok" "Query was successful" 20 20 2
         (yts_data.Unconverted (PList []))).
    repeat split.
  - simpl in Hi. lia.
Defined.

Lemma page_failure_aborts_witness :
  Script.run ["full"; "full"; "bare"] Script.table "dune x265"
  = (Raise TypeError,
     [EvFetch Cases.dune_url;
      EvFetch (Cases.dune_url ++ "&page=1");
      EvEmit Cases.dune_x265;
      EvFetch (Cases.dune_url ++ "&page=2")]).
Proof.
  apply (page_failure_aborts
           Script.unquote Script.urlencode
           (Script.retrieve_url ["full"; "full"; "bare"])
           (Script.json_loads Script.table) Script.repr_container
           "dune x265" "full" Script.page_full Script.page_full_rec
           2%Z Cases.movies 1%nat TypeError); try reflexivity.
  - simpl. lia.
  - intros i Hi. destruct i as [|i]; [|lia].
    exists "full", Script.page_full, Script.page_full_rec.
    repeat split.
  - right. right. right.
    exists "bare", Script.page_bare, Script.page_bare_rec.
    repeat split.
Defined.

Section SearchEdges.

Variable unquote : str -> str.
Variable urlencode : params -> str.
Variable retrieve_url : nat -> str -> res str.
Variable json_loads : str -> res pyval.
Variable repr_container : pyval -> str.

Set Warnings "-notation-for-abbreviation".
Local Notation first_url := (first_url unquote urlencode).
Local Notation run_search :=
  (run_search unquote urlencode retrieve_url json_loads repr_container).
Set Warnings "notation-for-abbreviation".

(** X19: when the status of the first response is not ["ok"] and the
    status and the status message cannot be added (one of them is [null],
    or they are of different kinds), the report itself fails: the search
    ends in [TypeError] after its single fetch, and nothing is printed. *)
Theorem unprintable_error_raises w body v resp :
  retrieve_url 0 (first_url w) = Ok body ->
  json_loads body = Ok v ->
  convert_response v = Ok resp ->
  py_eq_str (yts_response.status resp) "ok" = false ->
  py_add (yts_response.status resp) (yts_response.status_message resp)
  = Raise TypeError ->
  run_search w = (Raise TypeError, [EvFetch (first_url w)]).
Proof.
  intros H1 H2 H3 Hstatus Hadd.
  unfold run_search, search. unfold bind at 1.
  rewrite (get_response_ok retrieve_url json_loads (first_url w) []
             body v resp H1 H2 H3).
  rewrite Hstatus. cbn [negb]. unfold bind, lift. rewrite Hadd.
  reflexivity.
Qed.

(** X20: when the page count computed from the first response is zero or
    negative (a negative page size), the loop does not run: the search
    returns normally after its single fetch. *)
Theorem non_positive_page_count_fetches_nothing w body v resp n :
  retrieve_url 0 (first_url w) = Ok body ->
  json_loads body = Ok v ->
  convert_response v = Ok resp ->
  yts_response.status resp = PStr "ok" ->
  py_eq_int (yts_data.movie_count (yts_response.data resp)) 0 = false ->
  page_count (yts_response.data resp) = Ok n ->
  (n <= 0)%Z ->
  run_search w = (Ok tt, [EvFetch (first_url w)]).
Proof.
  intros H1 H2 H3 Hstatus Hcount Hn Hle.
  rewrite (run_search_pages unquote urlencode retrieve_url json_loads
             repr_container w body v resp H1 H2 H3);
    [|rewrite Hstatus; reflexivity | exact Hcount].
  unfold bind, lift. rewrite Hn. unfold range.
  replace (Z.to_nat n) with 0%nat by lia. reflexivity.
Qed.

End SearchEdges.

Lemma unprintable_error_raises_witness :
  Script.run ["null"] [("null", Cases2.page_null_status)] "dune"
  = (Raise TypeError, [EvFetch Cases.dune_url]).
Proof.
  apply (unprintable_error_raises
           Script.unquote Script.urlencode (Script.retrieve_url ["null"])
           (Script.json_loads [("null", Cases2.page_null_status)])
           Script.repr_container
           "dune" "null" Cases2.page_null_status
           Cases2.page_null_status_rec); reflexivity.
Defined.

Lemma non_positive_page_count_fetches_nothing_witness :
  Script.run ["neg"] [("neg", Cases2.page_negative_limit)] "dune"
  = (Ok tt, [EvFetch Cases.dune_url]).
Proof.
  apply (non_positive_page_count_fetches_nothing
           Script.unquote Script.urlencode (Script.retrieve_url ["neg"])
           (Script.json_loads [("neg", Cases2.page_negative_limit)])
           Script.repr_container
           "dune" "neg" Cases2.page_negative_limit
           Cases2.page_negative_limit_rec (-4)%Z); try reflexivity. lia.
Defined.

(** * Revised statements *)

Lemma remove_all_re_sub p s :
  remove_all p s = strip (re_sub (pat_regex p) s).
Proof. unfold remove_all. rewrite re_sub_finditer. reflexivity. Qed.

Lemma remove_all_page s :
  remove_all page_rstring s = strip (re_sub search_rstring s).
Proof. apply (remove_all_re_sub page_rstring s). Qed.

(** C1 (amended): when the text left by the resolution and codec steps
    contains a rating tag, and that text with every rating occurrence
    deleted contains a genre tag, the rating step captures the character
    after [rating=] in the first rating tag, a single character that
    [\d] matches, and the genre step captures the word of the first genre
    tag, a non-empty run of characters that [\w] matches, which it also
    stores under ["genre"] in the query parameters.  The free text is the
    text left by the first two steps with the characters of every rating
    occurrence deleted, then those of every genre occurrence, then those
    of every [&page=] occurrence, trimmed after each deletion. *)
Theorem rating_and_genre_extracted w d g :
  re_search rating_rstring (what (after_codec w)) = Some d ->
  re_search genre_rstring
            (remove_all rating_rstring (what (after_codec w))) = Some g ->
  min_rating (parse w) = Some d
  /\ genre (parse w) = Some g
  /\ dict_get "genre" (search_params (parse w)) = Some (PvStr g)
  /\ (exists c, d = [c] /\ is_digit c = true)
  /\ (g <> [] /\ Forall (fun c => is_word c = true) g)
  /\ what (parse w)
     = remove_all page_rstring
         (remove_all genre_rstring
            (remove_all rating_rstring (what (after_codec w)))).
Proof.
  intros Hd Hg. rewrite remove_all_page, !remove_all_re_sub.
  rewrite remove_all_re_sub in Hg. rewrite parse_unfold.
  assert (E1 : parse_rating (after_codec w) =
    {| what := strip (re_sub (pat_regex rating_rstring)
                             (what (after_codec w)));
       search_params :=
         dict_set "minimum_rating" (PvSet [d])
                  (search_params (after_codec w));
       search_resolution := search_resolution (after_codec w);
       search_codec := search_codec (after_codec w);
       min_rating := Some d;
       genre := genre (after_codec w) |}).
  { unfold parse_rating. rewrite Hd. reflexivity. }
  rewrite E1. unfold parse_genre. cbn [what]. rewrite Hg.
  cbn [parse_page what min_rating genre search_params].
  repeat split.
  - destruct (strip (re_sub search_rstring _)); [|
      rewrite dict_get_set_other by discriminate];
      apply dict_get_set_same.
  - apply rating_group, (re_search_group Rating _ d Hd).
  - apply (genre_group g), (re_search_group Genre _ g Hg).
  - apply (genre_group g), (re_search_group Genre _ g Hg).
Qed.

Lemma rating_and_genre_extracted_witness :
  re_search rating_rstring (what (after_codec "foo rating=7 genre=horror"))
  = Some "7"
  /\ re_search genre_rstring
       (remove_all rating_rstring
          (what (after_codec "foo rating=7 genre=horror")))
     = Some "horror"
  /\ min_rating (parse "foo rating=7 genre=horror") = Some "7"
  /\ genre (parse "foo rating=7 genre=horror") = Some "horror"
  /\ dict_get "genre" (search_params (parse "foo rating=7 genre=horror"))
     = Some (PvStr "horror")
  /\ what (parse "foo rating=7 genre=horror") = "foo".
Proof.
  split; [reflexivity|]. split; [reflexivity|].
  destruct (rating_and_genre_extracted "foo rating=7 genre=horror"
              "7" "horror") as (H1 & H2 & H3 & _ & _ & H6);
    [reflexivity ..|].
  split; [exact H1|]. split; [exact H2|]. split; [exact H3|].
  rewrite H6. reflexivity.
Defined.

(** C7, counterexample: a first response whose status is ["error"] and
    whose status message is [null].  The status is not ["ok"], the sum
    [status + status_message] raises [TypeError], nothing is printed and
    the exception reaches the caller. *)
Lemma upstream_error_counterexample :
  (exists resp,
      convert_response Cases3.page_null_message = Ok resp
      /\ yts_response.status resp = PStr "error"
      /\ yts_response.status_message resp = PNone)
  /\ Script.run ["null"] [("null", Cases3.page_null_message)] "dune"
     = (Raise TypeError, [EvFetch Cases.dune_url])
  /\ printed
       (snd (Script.run ["null"] [("null", Cases3.page_null_message)]
                        "dune"))
     = []
  /\ fst (Script.run ["null"] [("null", Cases3.page_null_message)] "dune")
     <> Ok tt.
Proof.
  split; [eexists; repeat split|].
  split; [reflexivity|]. split; [reflexivity|].
  vm_compute. discriminate.
Qed.

Section LoopComparison.

Variable unquote : str -> str.
Variable urlencode : params -> str.
Variable retrieve_url : nat -> str -> res str.
Variable json_loads : str -> res pyval.
Variable repr_container : pyval -> str.

Set Warnings "-notation-for-abbreviation".
Local Notation format_torrent := (format_torrent repr_container).
Local Notation torrent_body := (torrent_body repr_container).
Local Notation first_url := (first_url unquote urlencode).
Local Notation run_search :=
  (run_search unquote urlencode retrieve_url json_loads repr_container).
Local Notation page_emits := (page_emits repr_container).
Local Notation page_answers := (page_answers retrieve_url json_loads).
Set Warnings "notation-for-abbreviation".

(** What a search emits when all its pages answer. *)
Lemma emitted_when_pages_answer w body v resp n movies :
  retrieve_url 0 (first_url w) = Ok body ->
  json_loads body = Ok v ->
  convert_response v = Ok resp ->
  yts_response.status resp = PStr "ok" ->
  py_eq_int (yts_data.movie_count (yts_response.data resp)) 0 = false ->
  page_count (yts_response.data resp) = Ok n ->
  (forall i, (i < Z.to_nat n)%nat ->
             page_answers (S i) (page_url (first_url w) (Z.of_nat i))
                          (movies i)) ->
  emitted (snd (run_search w))
  = flat_map (fun i =>
                page_emits (search_codec (parse (unquote w)))
                           (search_resolution (parse (unquote w)))
                           (movies i))
             (seq 0 (Z.to_nat n)).
Proof.
  intros H1 H2 H3 Hstatus Hcount Hn Hpages.
  rewrite (run_search_pages unquote urlencode retrieve_url json_loads
             repr_container w body v resp H1 H2 H3);
    [|rewrite Hstatus; reflexivity | exact Hcount].
  unfold bind at 1, lift. rewrite Hn. unfold range.
  rewrite (pages_loop_ok retrieve_url json_loads repr_container
             _ _ _ movies (Z.to_nat n) 0);
    [|reflexivity | intros i Hi; apply Hpages; lia].
  cbn [snd app emitted]. apply pages_trace_emitted.
Qed.

(** A torrent whose quality is the resolution filter and whose codec is
    the codec filter, if there is one, is not skipped. *)
Lemma matching_torrent_not_skipped codec r t :
  yts_torrent.quality t = PStr r ->
  (forall c, codec = Some c -> yts_torrent.video_codec t = PStr c) ->
  skipped codec (Some r) t = false.
Proof.
  intros Hq Hc. unfold skipped. rewrite Hq. cbn [differs py_eq_str].
  rewrite str_eqb_refl. cbn [negb]. rewrite andb_false_r, orb_false_r.
  destruct codec as [c|]; [|reflexivity].
  rewrite (Hc c eq_refl). cbn [differs py_eq_str].
  rewrite str_eqb_refl. apply andb_false_r.
Qed.

(** C9: when a resolution tag is found in the query, the loop of the
    search compares each torrent's quality with the bare captured
    resolution, also when a codec was found and the ["quality"] query
    parameter holds the compound string.  In every run, each emitted
    record was built from a torrent whose quality is the bare resolution;
    the loop body emits a torrent whose quality is the bare resolution
    (and whose codec is the codec found, if any) and skips one whose
    quality is the compound string; and when all pages answer, every such
    torrent of every page is among the emitted records. *)
Theorem local_resolution_is_bare w r :
  re_search quality_rstring (unquote w) = Some r ->
  search_resolution (parse (unquote w)) = Some r
  /\ (forall c, search_codec (parse (unquote w)) = Some c ->
        dict_get "quality" (search_params (parse (unquote w)))
        = Some (PvStr (r ++ "." ++ c)))
  /\ (forall record,
         In record (emitted (snd (run_search w))) ->
         exists movie torrent,
           record = format_torrent movie torrent
           /\ yts_torrent.quality torrent = PStr r)
  /\ (forall movie torrent tr,
         yts_torrent.quality torrent = PStr r ->
         (forall c, search_codec (parse (unquote w)) = Some c ->
                    yts_torrent.video_codec torrent = PStr c) ->
         torrent_body (search_codec (parse (unquote w)))
                      (search_resolution (parse (unquote w)))
                      movie torrent tr
         = (Ok tt, tr ++ [EvEmit (format_torrent movie torrent)]))
  /\ (forall c movie torrent tr,
         search_codec (parse (unquote w)) = Some c ->
         yts_torrent.quality torrent = PStr (r ++ "." ++ c) ->
         torrent_body (search_codec (parse (unquote w)))
                      (search_resolution (parse (unquote w)))
                      movie torrent tr
         = (Ok tt, tr))
  /\ (forall body v resp n movies i movie torrent,
         retrieve_url 0 (first_url w) = Ok body ->
         json_loads body = Ok v ->
         convert_response v = Ok resp ->
         yts_response.status resp = PStr "ok" ->
         py_eq_int (yts_data.movie_count (yts_response.data resp)) 0
         = false ->
         page_count (yts_response.data resp) = Ok n ->
         (forall k, (k < Z.to_nat n)%nat ->
                    page_answers (S k)
                      (page_url (first_url w) (Z.of_nat k)) (movies k)) ->
         (i < Z.to_nat n)%nat ->
         In movie (movies i) ->
         In torrent (yts_movie.torrents movie) ->
         yts_torrent.quality torrent = PStr r ->
         (forall c, search_codec (parse (unquote w)) = Some c ->
                    yts_torrent.video_codec torrent = PStr c) ->
         In (format_torrent movie torrent) (emitted (snd (run_search w)))).
Proof.
  intros Hr.
  destruct (parse_resolution_is_bare (unquote w) r Hr)
    as (Hres & Hcompound & _ & _ & Hskip).
  split; [exact Hres|]. split; [exact Hcompound|].
  split; [|split; [|split]].
  - intros record Hin.
    destruct (run_search_shape unquote urlencode retrieve_url json_loads
                repr_container w)
      as (evs & Hsnd & [[pv ->] | (j & _ & _ & He)]);
      rewrite Hsnd in Hin; cbn [emitted] in Hin; [contradiction|].
    rewrite Forall_forall in He.
    destruct (He record Hin) as (movie & torrent & -> & Hnot).
    exists movie, torrent. split; [reflexivity|].
    destruct (parse_filters_set (unquote w)) as [Hc Hq].
    apply (not_skipped_passes _ _ torrent Hc Hq Hnot). exact Hres.
  - intros movie torrent tr Hq Hc.
    apply (torrent_body_emitted repr_container).
    rewrite Hres. apply matching_torrent_not_skipped; assumption.
  - intros c movie torrent tr Hc Hq.
    apply (torrent_body_skipped repr_container).
    apply (Hskip c torrent Hc Hq).
  - intros body v resp n movies i movie torrent
           H1 H2 H3 Hstatus Hcount Hn Hpages Hi Hm Ht Hq Hc.
    rewrite (emitted_when_pages_answer w body v resp n movies
               H1 H2 H3 Hstatus Hcount Hn Hpages).
    apply in_flat_map. exists i. split; [apply in_seq; lia|].
    unfold page_emits. apply in_flat_map. exists movie.
    split; [exact Hm|]. apply in_map. apply filter_In.
    split; [exact Ht|]. apply negb_true_iff. rewrite Hres.
    apply matching_torrent_not_skipped; assumption.
Qed.

End LoopComparison.

Lemma local_resolution_is_bare_witness :
  re_search quality_rstring (Script.unquote "dune 1080p x264")
  = Some "1080p"
  /\ dict_get "quality" (search_params (parse "dune 1080p x264"))
     = Some (PvStr "1080p.x264")
  /\ In Cases3.dune_1080p_x264
        (emitted
           (snd (Script.run ["full"; "full"; "empty"] Script.table
                            "dune 1080p x264")))
  /\ (forall record,
         In record
            (emitted
               (snd (Script.run ["full"; "full"; "empty"] Script.table
                                "dune 1080p x264"))) ->
         exists movie torrent,
           record = format_torrent Script.repr_container movie torrent
           /\ yts_torrent.quality torrent = PStr "1080p").
Proof.
  split; [reflexivity|].
  destruct (local_resolution_is_bare
              Script.unquote Script.urlencode
              (Script.retrieve_url ["full"; "full"; "empty"])
              (Script.json_loads Script.table) Script.repr_container
              "dune 1080p x264" "1080p")
    as (_ & Hq & Hsound & _ & _ & Hcomplete); [reflexivity|].
  split; [apply Hq; reflexivity|]. split; [|exact Hsound].
  apply (Hcomplete "full" Script.page_full Script.page_full_rec 2%Z
           Cases.movies 0%nat
           (Script.movie_rec [Script.torrent_rec "1080p" "x264";
                              Script.torrent_rec "1080p" "x265"])
           (Script.torrent_rec "1080p" "x264")); try reflexivity.
  - intros k Hk. destruct k as [|[|k]].
    + exists "full", Script.page_full, Script.page_full_rec.
      repeat split.
    + exists "empty", Script.page_empty,
        (Script.response_rec "ok" "Query was successful" 20 20 2
           (yts_data.Unconverted (PList []))).
      repeat split.
    + simpl in Hk. lia.
  - simpl. lia.
  - left. reflexivity.
  - left. reflexivity.
  - intros c [= <-]. reflexivity.
Defined.

(** ** Which payloads decode *)

Lemma map_res_ok_iff {A B} (f : A -> res B) l :
  (exists l', map_res f l = Ok l')
  <-> Forall (fun x => exists y, f x = Ok y) l.
Proof.
  induction l as [|x l IH]; simpl.
  - split; [constructor | eauto].
  - split.
    + intros [l' H]. destruct (f x) as [y|e] eqn:Ex; simpl in H;
        [|discriminate].
      destruct (map_res f l) as [ys|e] eqn:El; simpl in H;
        [|discriminate].
      constructor; [eauto | apply IH; eauto].
    + intros H. inversion H as [|x' l0 [y Hy] Hl]; subst.
      apply IH in Hl. destruct Hl as [ys Hys].
      rewrite Hy, Hys. simpl. eauto.
Qed.

Lemma exact_keys_bind fields kw :
  bind_kwargs fields [] kw = Ok tt <-> exact_keys fields kw.
Proof.
  rewrite bind_kwargs_ok, app_nil_r. unfold exact_keys. split.
  - intros [H1 H2] k. split; auto.
  - intros H. split; intros k Hk; apply H, Hk.
Qed.

Lemma res_unit_ok (r : res unit) : (exists u, r = Ok u) <-> r = Ok tt.
Proof.
  split; [intros [[] H]; exact H | eauto].
Qed.

Lemma torrent_item_ok_iff v :
  (exists t, (let? kw := kwargs v in yts_torrent.new kw) = Ok t)
  <-> torrent_shaped v.
Proof.
  unfold torrent_shaped. split.
  - intros [t H]. destruct v; try discriminate.
    cbn [kwargs res_bind] in H. unfold yts_torrent.new in H.
    destruct (bind_kwargs yts_torrent.fields [] d) as [[]|] eqn:E;
      [|discriminate].
    eexists. split; [reflexivity | apply exact_keys_bind, E].
  - intros (kw & -> & Hk). apply exact_keys_bind in Hk.
    cbn [kwargs res_bind]. unfold yts_torrent.new. rewrite Hk.
    cbn [res_bind]. eauto.
Qed.

Lemma Forall_iff {A} (P Q : A -> Prop) l :
  (forall x, P x <-> Q x) -> Forall P l <-> Forall Q l.
Proof.
  intros H. split; apply Forall_impl; intros x; apply H.
Qed.

Lemma movie_item_ok_iff v :
  (exists m, (let? kw := kwargs v in yts_movie.new kw) = Ok m)
  <-> movie_shaped v.
Proof.
  unfold movie_shaped. split.
  - intros [m H]. destruct v; try discriminate.
    cbn [kwargs res_bind] in H. unfold yts_movie.new in H.
    destruct (bind_kwargs yts_movie.fields [] d) as [[]|] eqn:E;
      [|discriminate].
    cbn [res_bind] in H. unfold yts_movie.post_init in H.
    destruct (py_iter (arg d "torrents")) as [items|] eqn:Ei;
      [|discriminate].
    cbn [res_bind] in H.
    destruct (map_res _ items) as [ts|] eqn:Em; [|discriminate].
    eexists. split; [reflexivity|].
    split; [apply exact_keys_bind, E|].
    exists items. split; [first [exact Ei | reflexivity]|].
    apply (Forall_iff _ _ items torrent_item_ok_iff).
    apply map_res_ok_iff. eauto.
  - intros (kw & -> & Hk & items & Hi & Hf). apply exact_keys_bind in Hk.
    cbn [kwargs res_bind]. unfold yts_movie.new. rewrite Hk.
    cbn [res_bind]. unfold yts_movie.post_init. rewrite Hi.
    cbn [res_bind].
    apply (Forall_iff _ _ items torrent_item_ok_iff) in Hf.
    apply map_res_ok_iff in Hf. destruct Hf as [ts ->].
    cbn [res_bind]. eauto.
Qed.

Lemma data_new_ok_iff kw :
  (exists d, yts_data.new kw = Ok d) <-> data_shaped kw.
Proof.
  unfold data_shaped, yts_data.new.
  pose proof (bind_kwargs_ok yts_data.required yts_data.optional kw)
    as Hb.
  split.
  - intros [d H].
    destruct (bind_kwargs yts_data.required yts_data.optional kw)
      as [[]|] eqn:E; [|discriminate].
    destruct (proj1 Hb eq_refl) as [Hk1 Hk2].
    split; [exact Hk1|]. split; [exact Hk2|].
    intros Ht. cbn [res_bind] in H. unfold yts_data.post_init in H.
    rewrite Ht in H.
    destruct (py_iter (arg kw "movies")) as [items|] eqn:Ei;
      [|discriminate].
    cbn [res_bind] in H.
    destruct (map_res _ items) as [ms|] eqn:Em; [|discriminate].
    exists items. split; [first [exact Ei | reflexivity]|].
    apply (Forall_iff _ _ items movie_item_ok_iff).
    apply map_res_ok_iff. eauto.
  - intros (Hk1 & Hk2 & Hm).
    rewrite (proj2 Hb (conj Hk1 Hk2)). cbn [res_bind].
    unfold yts_data.post_init.
    destruct (py_truthy (arg kw "movies")) eqn:Ht.
    + destruct (Hm eq_refl) as (items & Hi & Hf). rewrite Hi.
      cbn [res_bind].
      apply (Forall_iff _ _ items movie_item_ok_iff) in Hf.
      apply map_res_ok_iff in Hf. destruct Hf as [ms ->].
      cbn [res_bind]. eauto.
    + cbn [res_bind]. eauto.
Qed.

Lemma keys_filter fs (d : dict) k :
  In k (keys (filter (fun kv => mem (fst kv) fs) d))
  <-> In k (keys d) /\ mem k fs = true.
Proof.
  unfold keys. rewrite !in_map_iff. split.
  - intros ([k' v] & <- & H). apply filter_In in H. destruct H as [H1 H2].
    split; [exists (k', v); auto | exact H2].
  - intros [([k' v] & <- & H) Hm]. exists (k', v). split; [reflexivity|].
    apply filter_In. auto.
Qed.

Lemma convert_response_ok_iff items :
  (exists r, convert_response (PDict items) = Ok r)
  <-> response_shaped items.
Proof.
  unfold response_shaped. cbn [convert_response].
  unfold yts_response.new.
  set (kw := filter (fun kv => mem (fst kv) yts_response.fields) items).
  assert (Hdata : arg kw "data"
                  = match dict_get "data" items with
                    | Some x => x
                    | None => PNone
                    end).
  { unfold arg, kw. rewrite dict_get_filter by reflexivity.
    reflexivity. }
  assert (Hbind : bind_kwargs yts_response.fields [] kw = Ok tt
                  <-> forall f, In f yts_response.fields ->
                                In f (keys items)).
  { rewrite bind_kwargs_ok, app_nil_r. split.
    - intros [_ H] f Hf. apply (keys_filter yts_response.fields items f).
      apply H, Hf.
    - intros H. split; intros k Hk.
      + apply keys_filter in Hk. apply mem_In, Hk.
      + apply keys_filter. split; [apply H, Hk | apply mem_In, Hk]. }
  split.
  - intros [r H].
    destruct (bind_kwargs yts_response.fields [] kw) as [[]|] eqn:E;
      [|discriminate].
    split; [apply Hbind; reflexivity|].
    cbn [res_bind] in H. rewrite Hdata in H.
    destruct (dict_get "data" items) as [[| | | | |dkw]|];
      try discriminate.
    cbn [kwargs res_bind] in H.
    destruct (yts_data.new dkw) as [d|] eqn:Ed; [|discriminate].
    exists dkw. split; [reflexivity|]. apply data_new_ok_iff. eauto.
  - intros [Hf (dkw & Hd & Hs)].
    rewrite (proj2 Hbind Hf). cbn [res_bind]. rewrite Hdata, Hd.
    cbn [kwargs res_bind].
    apply data_new_ok_iff in Hs. destruct Hs as [d ->].
    cbn [res_bind]. eauto.
Qed.

Lemma convert_response_raises items e :
  convert_response (PDict items) = Raise e -> e = TypeError.
Proof.
  cbn [convert_response]. unfold yts_response.new. intros H.
  destruct (bind_kwargs yts_response.fields [] _) eqn:Eb;
    cbn [res_bind] in H.
  - destruct (kwargs _) as [dkw|e'] eqn:Ek; cbn [res_bind] in H.
    + destruct (yts_data.new dkw) eqn:Ed; cbn [res_bind] in H;
        [discriminate|].
      injection H as <-. apply (data_new_error _ _ Ed).
    + injection H as <-. apply (kwargs_error _ _ Ek).
  - injection H as <-. apply (bind_kwargs_error _ _ _ _ Eb).
Qed.

(** X8: [convert_response] raises [AttributeError] for every payload
    that is not a JSON object.  A JSON object decodes exactly when it has
    the declared shape: [status], [status_message] and [data] are
    present; [data] is an object with [movie_count], [limit],
    [page_number] and at most [movies] besides; [movies], unless falsy,
    iterates over objects whose keys are exactly the fields of
    [yts_movie] and whose [torrents] iterate over objects whose keys are
    exactly the fields of [yts_torrent].  Every other JSON object raises
    [TypeError]. *)
Theorem convert_response_errors :
  (forall v, (forall d, v <> PDict d) ->
             convert_response v = Raise AttributeError)
  /\ (forall items,
         response_shaped items <->
         exists r, convert_response (PDict items) = Ok r)
  /\ (forall items,
         ~ response_shaped items ->
         convert_response (PDict items) = Raise TypeError).
Proof.
  split; [|split].
  - intros v Hv. destruct v; try reflexivity.
    exfalso. apply (Hv d). reflexivity.
  - intros items. symmetry. apply convert_response_ok_iff.
  - intros items Hn.
    destruct (convert_response (PDict items)) as [r|e] eqn:E.
    + exfalso. apply Hn. apply convert_response_ok_iff. eauto.
    + f_equal. apply (convert_response_raises items e E).
Qed.

Lemma convert_response_errors_witness :
  convert_response (PList []) = Raise AttributeError
  /\ convert_response Script.page_broken = Raise TypeError.
Proof.
  split.
  - apply (proj1 convert_response_errors). discriminate.
  - apply (proj2 (proj2 convert_response_errors)
             [("status", PStr "ok"); ("status_message", PStr "")]).
    intros [Hf _]. specialize (Hf "data").
    assert (Hin : In "data" yts_response.fields)
      by (right; right; left; reflexivity).
    apply Hf in Hin. simpl in Hin.
    destruct Hin as [H | [H | []]]; discriminate.
Defined.
